(** * Legacy checkout interface (src/legacy/interface.js)

    A shallow embedding of the legacy [window.paypal.checkout] bridge:
    the token parser, the full-page redirect URL, the three global
    callback slots that [getPaymentToken] overwrites and restores, the
    public [startFlow] / [closeFlow] / [initXO] entry points and the
    guarded installation of the namespace. *)

From Stdlib Require Import Ascii String.
From stdpp Require Import gmap strings list fin_maps.

(** ** Strings *)

Module Str.

(** The double quote character, used inside error messages. *)
Definition dquote : string := String "034"%char EmptyString.

Definition is_empty (s : string) : bool :=
  match s with EmptyString => true | String _ _ => false end.

Fixpoint all (p : ascii -> bool) (s : string) : bool :=
  match s with
  | EmptyString => true
  | String c s' => p c && all p s'
  end.

Fixpoint take (n : nat) (s : string) : string :=
  match n, s with
  | S n', String c s' => String c (take n' s')
  | _, _ => EmptyString
  end.

Fixpoint drop (n : nat) (s : string) : string :=
  match n, s with
  | S n', String _ s' => drop n' s'
  | _, _ => s
  end.

(** A literal at the head of [s]: what follows it. *)
Fixpoint literal (lit s : string) : option string :=
  match lit with
  | EmptyString => Some s
  | String c lit' =>
      match s with
      | String d s' => if Ascii.eqb c d then literal lit' s' else None
      | EmptyString => None
      end
  end.

(** [sub] occurs somewhere inside [s], decided from the left. *)
Fixpoint contains (sub s : string) : bool :=
  match literal sub s with
  | Some _ => true
  | None =>
      match s with
      | String _ s' => contains sub s'
      | EmptyString => false
      end
  end.

(** [sub] occurs somewhere inside [s]. *)
Definition Occurs (sub s : string) : Prop :=
  exists pre post, s = pre +:+ sub +:+ post.

End Str.

(** ** Token parser *)

Module TokenParser.

(** The character class [[A-Z0-9]]. *)
Definition isUpperAlnum (c : ascii) : bool :=
  let n := nat_of_ascii c in
  ((65 <=? n) && (n <=? 90)) || ((48 <=? n) && (n <=? 57)).

(** [[A-Z0-9]{n}] at the head of [s]: the characters consumed and what
    follows them. *)
Fixpoint class_run (n : nat) (s : string) : option (string * string) :=
  match n with
  | 0 => Some (EmptyString, s)
  | S n' =>
      match s with
      | String c s' =>
          if isUpperAlnum c then
            match class_run n' s' with
            | Some (m, r) => Some (String c m, r)
            | None => None
            end
          else None
      | EmptyString => None
      end
  end.

(** [(EC-)?[A-Z0-9]{17}] at the head of [s], followed by the end of the
    input when [anchored].  The optional group is greedy: the branch
    with the prefix is tried first and the matcher backtracks to the
    branch without it.  The result is the text matched. *)
Definition token_pattern (anchored : bool) (s : string) : option string :=
  let at_end r := if anchored then Str.is_empty r else true in
  let with_prefix :=
    match Str.literal "EC-" s with
    | Some s1 =>
        match class_run 17 s1 with
        | Some (m, r) => if at_end r then Some ("EC-" +:+ m) else None
        | None => None
        end
    | None => None
    end in
  match with_prefix with
  | Some m => Some m
  | None =>
      match class_run 17 s with
      | Some (m, r) => if at_end r then Some m else None
      | None => None
      end
  end.

(** [token.match(/^(EC-)?[A-Z0-9]{17}$/)], as a truth value. *)
Definition match_bare (s : string) : bool :=
  match token_pattern true s with Some _ => true | None => false end.

(** [/token=((EC-)?[A-Z0-9]{17})/] tried at the head of [s]: the first
    capture group. *)
Definition match_here (s : string) : option string :=
  match Str.literal "token=" s with
  | Some s1 => token_pattern false s1
  | None => None
  end.

(** [token.match(/token=((EC-)?[A-Z0-9]{17})/)]: the pattern is tried at
    each offset from the left; the first capture group of the first
    match, [None] for [null]. *)
Fixpoint match_url (s : string) : option string :=
  match match_here s with
  | Some m => Some m
  | None =>
      match s with
      | String _ s' => match_url s'
      | EmptyString => None
      end
  end.

(** [parseToken(token)]; [None] stands for [undefined], on both sides. *)
Definition parseToken (token : option string) : option string :=
  match token with
  | None => None
  | Some s =>
      if Str.is_empty s then None
      else if match_bare s then Some s
      else match_url s
  end.

(** Modelled from the spec: [matchToken] is imported from [./util], which
    is not part of the sources at hand.  The spec's [isUrlForm] is true
    exactly when the input is not itself a bare canonical token, and
    [matchToken] is its complement: the input is a string matching the
    canonical pattern [(EC-)?[A-Z0-9]{17}] in full. *)
Definition matchToken (token : option string) : bool :=
  match token with
  | None => false
  | Some s => match_bare s
  end.

(** The canonical token of the data model, in the spec's words: seventeen
    characters of [[A-Z0-9]], optionally prefixed by [EC-]. *)
Definition Body (b : string) : Prop :=
  String.length b = 17 /\ Str.all isUpperAlnum b = true.

(** The same, as a test. *)
Definition is_body (b : string) : bool :=
  (String.length b =? 17) && Str.all isUpperAlnum b.

Definition canonical (s : string) : bool :=
  is_body s ||
  match Str.literal "EC-" s with
  | Some b => is_body b
  | None => false
  end.

Definition Canonical (s : string) : Prop :=
  exists b, Body b /\ (s = b \/ s = "EC-" +:+ b).

(** [s] holds [token=<c>] with [c] canonical, starting at offset [i]. *)
Definition TokenAt (s : string) (i : nat) (c : string) : Prop :=
  exists pre post,
    s = pre +:+ "token=" +:+ c +:+ post /\ String.length pre = i /\ Canonical c.

(** [c] is the canonical token of the first [token=<canonical>] in [s]. *)
Definition FirstToken (s c : string) : Prop :=
  exists i, TokenAt s i c /\ forall j c', TokenAt s j c' -> i <= j.

End TokenParser.

Import TokenParser.

(** ** The page: values, objects, events *)

(** A JavaScript value, as far as this module handles them: [undefined],
    a primitive string, or a reference to an object in the heap.
    Functions are objects. *)
Inductive Value : Type :=
| VUndef
| VStr (s : string)
| VRef (l : nat).

(** The function objects the module creates once, when it is evaluated:
    the hoisted declarations [setup], [initXO], [startFlow],
    [closeFlow]. *)
Record ModuleEnv : Type := {
  m_setup : nat;
  m_initXO : nat;
  m_startFlow : nat;
  m_closeFlow : nat
}.

(** What a function object runs when called.  A function carries what
    its body reaches of the scope it closes over.  [initXO] and
    [startFlow] reach, through [initPayPalCheckout], [getPaymentToken]
    and [reset], the functions of their module.  The three closures made
    by [getPaymentToken] reach those too, and [this], [resolve] and
    [reject].  ([setup] is not followed, and carries nothing.) *)
Inductive Fn : Type :=
| FSetup
| FInitXO (m : ModuleEnv)
| FStartFlow (m : ModuleEnv)
| FCloseFlow
| FEventsOn
| FTokenInitXO
| FTokenStartFlow (m : ModuleEnv) (self resolve reject : nat)
| FTokenCloseFlow (m : ModuleEnv) (self resolve reject : nat)
| FForeign (id : nat).

Record Obj : Type := {
  props : gmap string Value;
  code : option Fn
}.

Inductive Level : Type := LevelDebug | LevelInfo | LevelWarning | LevelError.

Inductive TokenProp : Type :=
| TokenProvider            (* paymentToken: getPaymentToken *)
| TokenValue (t : option string).

Inductive UrlProp : Type :=
| UrlAbsent
| UrlNull
| UrlValue (u : option string).

(** The properties handed to [PayPalCheckout.init], after the spread of
    the caller's [props]. *)
Record InitProps : Type := {
  p_uid : Value;
  p_paymentToken : TokenProp;
  p_url : UrlProp
}.

(** Calls that leave the module: the log, the console, the eligibility
    predicate, the redirect, the callbacks of an acquisition, the
    component. *)
Inductive Call : Type :=
| Log (lvl : Level) (name : string) (payload : list (string * option string))
| ConsoleWarn (msg : string)
| ConsoleError (msg : string)
| IsEligible (answer : bool)
| Redirect (url : option string)
| Resolve (resolve : nat) (token : option string)
| Reject (reject : nat) (message : string)
| UpdateProps (self : nat) (url : option string)
| Close (self : nat)
| SetAutocloseParentTemplate (b : bool)
| Init (p : InitProps) (handle : nat)
| Render (handle : nat)
| Outside (f : Fn) (arg : option string).

(** The contents of the three global slots [initXO], [startFlow],
    [closeFlow]. *)
Record Slots : Type := {
  s_initXO : Value;
  s_startFlow : Value;
  s_closeFlow : Value
}.

(** A call together with the slots as the callee finds them. *)
Record Event : Type := {
  call : Call;
  seen : Slots
}.

Record World : Type := {
  heap : gmap nat Obj;
  window : gmap string Value;       (* properties of the global object *)
  trace : list Event;
  eligibility : bool;               (* what [isEligible()] answers *)
  checkoutUrl : string;             (* [config.checkoutUrl] *)
  handles : nat                     (* components made so far *)
}.

#[global] Instance Value_eq_dec : EqDecision Value.
Proof. solve_decision. Defined.

#[global] Instance ModuleEnv_eq_dec : EqDecision ModuleEnv.
Proof. solve_decision. Defined.

#[global] Instance Fn_eq_dec : EqDecision Fn.
Proof. solve_decision. Defined.

#[global] Instance Slots_eq_dec : EqDecision Slots.
Proof. solve_decision. Defined.

Definition with_heap (h : gmap nat Obj) (w : World) : World :=
  {| heap := h; window := window w; trace := trace w;
     eligibility := eligibility w; checkoutUrl := checkoutUrl w;
     handles := handles w |}.

Definition with_window (g : gmap string Value) (w : World) : World :=
  {| heap := heap w; window := g; trace := trace w;
     eligibility := eligibility w; checkoutUrl := checkoutUrl w;
     handles := handles w |}.

Definition with_trace (t : list Event) (w : World) : World :=
  {| heap := heap w; window := window w; trace := t;
     eligibility := eligibility w; checkoutUrl := checkoutUrl w;
     handles := handles w |}.

Definition with_handles (n : nat) (w : World) : World :=
  {| heap := heap w; window := window w; trace := trace w;
     eligibility := eligibility w; checkoutUrl := checkoutUrl w;
     handles := n |}.

Definition truthy (v : Value) : bool :=
  match v with
  | VUndef => false
  | VStr s => negb (Str.is_empty s)
  | VRef _ => true
  end.

(** Truth value of a token or [undefined]. *)
Definition truthy_token (t : option string) : bool :=
  match t with
  | None => false
  | Some s => negb (Str.is_empty s)
  end.

Definition obj_get (o : Obj) (p : string) : Value := default VUndef (props o !! p).

Definition obj_set (p : string) (v : Value) (o : Obj) : Obj :=
  {| props := <[p := v]> (props o); code := code o |}.

Definition empty_obj : Obj := {| props := ∅; code := None |}.

(** [base.p] read on the heap [h], where [base] is not [undefined]. *)
Definition lookup_prop (h : gmap nat Obj) (base : Value) (p : string) : Value :=
  match base with
  | VRef l => match h !! l with Some o => obj_get o p | None => VUndef end
  | _ => VUndef
  end.

(** [window.paypal.checkout.<name>], [undefined] when the path breaks. *)
Definition slot (w : World) (name : string) : Value :=
  lookup_prop (heap w)
    (lookup_prop (heap w) (default VUndef (window w !! "paypal")) "checkout") name.

Definition read_slots (w : World) : Slots :=
  {| s_initXO := slot w "initXO";
     s_startFlow := slot w "startFlow";
     s_closeFlow := slot w "closeFlow" |}.

Definition calls (w : World) : list Call := map call (trace w).

(** ** Effects: state, trace and exceptions *)

Inductive Exn : Type :=
| JsError (message : string)
| TypeError (what : string).

Inductive Outcome (A : Type) : Type :=
| Ret (a : A)
| Throw (e : Exn).

Arguments Ret {A} a.
Arguments Throw {A} e.

Definition M (A : Type) : Type := World -> Outcome A * World.

Definition ret {A} (a : A) : M A := fun w => (Ret a, w).

Definition throw {A} (e : Exn) : M A := fun w => (Throw e, w).

Definition bind {A B} (c : M A) (k : A -> M B) : M B :=
  fun w =>
    match c w with
    | (Ret a, w') => k a w'
    | (Throw e, w') => (Throw e, w')
    end.

Declare Scope js_scope.
Delimit Scope js_scope with js.
Notation "x ← y ; z" := (bind y (fun x => z))
  (at level 20, y at level 100, z at level 200, only parsing) : js_scope.
Notation "x ;; z" := (bind x (fun _ => z))
  (at level 100, z at level 200, only parsing, right associativity) : js_scope.
Local Open Scope js_scope.

(** The world after the call [c] has been made. *)
Definition push (c : Call) (w : World) : World :=
  with_trace (trace w ++ [ {| call := c; seen := read_slots w |} ]) w.

Definition emit (c : Call) : M unit :=
  fun w => (Ret tt, push c w).

Definition get_window (p : string) : M Value :=
  fun w => (Ret (default VUndef (window w !! p)), w).

Definition set_window (p : string) (v : Value) : M unit :=
  fun w => (Ret tt, with_window (<[p := v]> (window w)) w).

(** [base.p]: a [TypeError] on [undefined], [undefined] on a primitive
    string (none of the names read here is a string method). *)
Definition get_prop (base : Value) (p : string) : M Value :=
  fun w =>
    match base with
    | VUndef => (Throw (TypeError ("Cannot read properties of undefined: " +:+ p)), w)
    | _ => (Ret (lookup_prop (heap w) base p), w)
    end.

(** The heap after [p] of the object at [l] has been set to [v]. *)
Definition store (l : nat) (p : string) (v : Value) (w : World) : World :=
  with_heap (<[l := obj_set p v (default empty_obj (heap w !! l))]> (heap w)) w.

(** [base.p = v] in strict mode, as in any module: a [TypeError] on
    [undefined] and on a primitive. *)
Definition set_prop (base : Value) (p : string) (v : Value) : M unit :=
  fun w =>
    match base with
    | VUndef => (Throw (TypeError ("Cannot set properties of undefined: " +:+ p)), w)
    | VStr _ => (Throw (TypeError ("Cannot create property on string: " +:+ p)), w)
    | VRef l => (Ret tt, store l p v w)
    end.

(** The address of the next object. *)
Definition next_loc (w : World) : nat := fresh (dom (heap w)).

(** The heap with the new object [o]. *)
Definition place (o : Obj) (w : World) : World :=
  with_heap (<[next_loc w := o]> (heap w)) w.

(** A new object at an address not in use. *)
Definition alloc (o : Obj) : M Value :=
  fun w => (Ret (VRef (next_loc w)), place o w).

Definition new_object : M Value := alloc empty_obj.

Definition fn_obj (f : Fn) : Obj := {| props := ∅; code := Some f |}.

Definition new_function (f : Fn) : M Value := alloc (fn_obj f).

(** The callee of a call expression: a [TypeError] unless it is a
    function object. *)
Definition callee (v : Value) : M Fn :=
  fun w =>
    match v with
    | VRef l =>
        match heap w !! l with
        | Some {| code := Some f |} => (Ret f, w)
        | _ => (Throw (TypeError "not a function"), w)
        end
    | _ => (Throw (TypeError "not a function"), w)
    end.

(** ** Collaborators *)

(** Modelled from the spec: the log functions of [./log], [isEligible] of
    [./eligibility], [redirect] of [./util] and the component of
    [../components] are not part of the sources at hand.  A call to one
    of them is recorded in the trace with its arguments.  The
    eligibility predicate is opaque: it answers what the context says
    and does nothing else. *)
Definition logDebug (name : string) (payload : list (string * option string)) : M unit :=
  emit (Log LevelDebug name payload).

Definition logInfo (name : string) (payload : list (string * option string)) : M unit :=
  emit (Log LevelInfo name payload).

Definition logWarning (name : string) (payload : list (string * option string)) : M unit :=
  emit (Log LevelWarning name payload).

Definition logError (name : string) (payload : list (string * option string)) : M unit :=
  emit (Log LevelError name payload).

Definition isEligible : M bool :=
  fun w => (emit (IsEligible (eligibility w)) ;; ret (eligibility w)) w.

Definition redirect (url : option string) : M unit := emit (Redirect url).

(** Modelled from the spec: [PayPalCheckout.init(props)] makes a
    component, returned here as a handle.  A token provider in
    [paymentToken] is in precall mode: it is called the moment the
    component is inited, with the component as [this] and with the two
    callbacks of the component's token request, which are named by the
    handle as well.  A token given as a value is not called.  [provider]
    is the function the caller put in [paymentToken] when the prop is
    [TokenProvider]. *)
Definition PayPalCheckout_init (provider : nat -> nat -> nat -> M unit)
    (p : InitProps) : M nat :=
  fun w =>
    let h := handles w in
    (emit (Init p h) ;;
     (fun w' => (Ret tt, with_handles (S h) w')) ;;
     match p_paymentToken p with
     | TokenProvider => provider h h h
     | TokenValue _ => ret tt
     end ;;
     ret h) w.

Definition render (handle : nat) : M unit := emit (Render handle).

(** ** The module's functions *)

(** A value inside a template literal. *)
Definition show_token (token : option string) : string :=
  match token with
  | None => "undefined"
  | Some s => s
  end.

Definition expected_token_message (token : option string) : string :=
  "Expected " +:+ Str.dquote +:+ show_token token +:+ Str.dquote +:+
  " passed to window.paypal.checkout.startFlow to contain express-checkout payment token".

Definition getFullpageRedirectUrl (token : option string) : M (option string) :=
  fun w =>
    let baseUrl := checkoutUrl w in
    let url :=
      if matchToken token then Some (baseUrl +:+ "?token=" +:+ show_token token)
      else token in
    (Ret url, w).

(** The object [window.paypal.checkout]. *)
Definition checkout_namespace : M Value :=
  p ← get_window "paypal";
  get_prop p "checkout".

(** [window.paypal.checkout.<name> = <rhs>]. *)
Definition assign_checkout (name : string) (rhs : M Value) : M unit :=
  base ← checkout_namespace;
  v ← rhs;
  set_prop base name v.

Section Bridge.

(** The module instance whose code runs. *)
Variable m : ModuleEnv.

(** The acquisition: [this] of the component, and its two callbacks. *)
Variables self resolve reject : nat.

Definition reset : M unit :=
  assign_checkout "initXO" (ret (VRef (m_initXO m))) ;;
  assign_checkout "startFlow" (ret (VRef (m_startFlow m))) ;;
  assign_checkout "closeFlow" (ret (VRef (m_closeFlow m))).

(** The function [getPaymentToken] puts in the [initXO] slot. *)
Definition capture_initXO : M unit :=
  logDebug "paymenttoken_initxo" [].

(** The function [getPaymentToken] puts in the [startFlow] slot. *)
Definition capture_startFlow (token : option string) : M unit :=
  logDebug "paymenttoken_startflow" [("token", token)] ;;
  reset ;;
  let ecToken := parseToken token in
  if negb (truthy_token ecToken) then
    logError "paymenttoken_startflow_notoken" [("token", token)] ;;
    throw (JsError (expected_token_message token))
  else
    eligible ← isEligible;
    if negb eligible then
      logDebug "paymenttoken_startflow_ineligible" [("token", ecToken)] ;;
      url ← getFullpageRedirectUrl token;
      redirect url
    else
      (if matchToken token then
         logDebug "paymenttoken_startflow_tokenpassed" [("token", token)]
       else
         (logDebug "paymenttoken_startflow_urlpassed" [("token", token)] ;;
          emit (UpdateProps self token))) ;;
      emit (Resolve resolve ecToken).

(** The function [getPaymentToken] puts in the [closeFlow] slot. *)
Definition capture_closeFlow : M unit :=
  logWarning "paymenttoken_closeflow" [] ;;
  reset ;;
  emit (Reject reject "Close Flow Called") ;;
  emit (Close self).

Definition getPaymentToken : M unit :=
  assign_checkout "initXO" (new_function FTokenInitXO) ;;
  assign_checkout "startFlow" (new_function (FTokenStartFlow m self resolve reject)) ;;
  assign_checkout "closeFlow" (new_function (FTokenCloseFlow m self resolve reject)).

End Bridge.

(** The [props] argument of [initPayPalCheckout]: what the caller sets. *)
Record Props : Type := {
  props_url : UrlProp;
  props_paymentToken : option TokenProp
}.

Section Entry.

(** The module instance whose code runs. *)
Variable m : ModuleEnv.

Definition initPayPalCheckout (props : Props) : M nat :=
  logInfo "init_checkout" [] ;;
  emit (SetAutocloseParentTemplate false) ;;
  uid ← get_window "pp_uid";
  PayPalCheckout_init (getPaymentToken m)
    {| p_uid := uid;
       p_paymentToken := default TokenProvider (props_paymentToken props);
       p_url := props_url props |}.

Definition initXO : M unit :=
  logDebug "initxo" [] ;;
  eligible ← isEligible;
  if negb eligible then ret tt
  else
    c ← initPayPalCheckout {| props_url := UrlAbsent; props_paymentToken := None |};
    render c.

Definition startFlow (token : option string) : M unit :=
  logDebug "startflow" [("token", token)] ;;
  let ecToken := parseToken token in
  if negb (truthy_token ecToken) then
    logWarning "startflow_notoken" [] ;;
    throw (JsError (expected_token_message token))
  else
    eligible ← isEligible;
    if negb eligible then
      logDebug "startflow_ineligible" [] ;;
      url ← getFullpageRedirectUrl token;
      redirect url
    else
      c ← initPayPalCheckout
            {| props_url := if matchToken token then UrlNull else UrlValue token;
               props_paymentToken := Some (TokenValue ecToken) |};
      render c.

End Entry.

Definition closeFlow : M unit :=
  logDebug "closeflow" [] ;;
  emit (ConsoleWarn "Checkout is not open, can not be closed").

Definition events_on (name : option string) : M unit :=
  logError "eventing_unsupported" [("name", name)].

(** Calling a function object with one argument.  [setup] and the
    functions of other scripts are not followed: the call is recorded. *)
Definition apply_fn (f : Fn) (arg : option string) : M unit :=
  match f with
  | FInitXO m => initXO m
  | FStartFlow m => startFlow m arg
  | FCloseFlow => closeFlow
  | FEventsOn => events_on arg
  | FTokenInitXO => capture_initXO
  | FTokenStartFlow m self resolve reject => capture_startFlow m self resolve arg
  | FTokenCloseFlow m self resolve reject => capture_closeFlow m self reject
  | FSetup | FForeign _ => emit (Outside f arg)
  end.

(** The page calls [window.paypal.checkout.<name>(arg)]. *)
Definition call_checkout (name : string) (arg : option string) : M unit :=
  base ← checkout_namespace;
  v ← get_prop base name;
  f ← callee v;
  apply_fn f arg.

Definition install_error : string :=
  "Error: window.paypal.checkout already exists. You may have inserted the checkout.js script more than once. Ignoring further attempts to assign to window.paypal.checkout.".

(** [base.<name> = base.<name> || {}] *)
Definition default_object (read : M Value) : M Value :=
  v ← read;
  if truthy v then ret v else new_object.

(** The statements that set up [window.paypal.checkout], run when the
    module [m] is evaluated. *)
Definition install (m : ModuleEnv) : M unit :=
  (p ← default_object (get_window "paypal"); set_window "paypal" p) ;;
  (base ← get_window "paypal";
   c ← default_object (get_prop base "checkout");
   set_prop base "checkout" c) ;;
  guard ← (c ← checkout_namespace; get_prop c "setup");
  if truthy guard then
    emit (ConsoleError install_error)
  else
    assign_checkout "setup" (ret (VRef (m_setup m))) ;;
    assign_checkout "initXO" (ret (VRef (m_initXO m))) ;;
    assign_checkout "startFlow" (ret (VRef (m_startFlow m))) ;;
    assign_checkout "closeFlow" (ret (VRef (m_closeFlow m))) ;;
    assign_checkout "events"
      (e ← new_object; on ← new_function FEventsOn; set_prop e "on" on ;; ret e) ;;
    (P ← default_object (get_window "PAYPAL"); set_window "PAYPAL" P) ;;
    (base ← get_window "PAYPAL";
     c ← checkout_namespace;
     set_prop base "checkout" c) ;;
    (base ← get_window "PAYPAL";
     a ← default_object (get_prop base "apps");
     set_prop base "apps" a) ;;
    (P ← get_window "PAYPAL";
     base ← get_prop P "apps";
     c ← checkout_namespace;
     set_prop base "checkout" c).

(** The addresses of the next four objects of the heap. *)
Definition next_module (w : World) : ModuleEnv :=
  let w1 := place empty_obj w in
  let w2 := place empty_obj w1 in
  let w3 := place empty_obj w2 in
  {| m_setup := next_loc w; m_initXO := next_loc w1;
     m_startFlow := next_loc w2; m_closeFlow := next_loc w3 |}.

(** The declarations of [setup], [initXO], [startFlow] and [closeFlow]
    followed by the installation statements: the four declarations are
    hoisted and become function objects closed over the module they make
    up, then [install] runs with them.  This is a part of what evaluating
    the module does, not the whole of it: the calls of [onDocumentReady]
    (the scan for marked buttons, the call of [paypalCheckoutReady]) and
    the definition of the setter of [window.paypalCheckoutReady] are not
    in it. *)
Definition declare_and_install : M ModuleEnv :=
  fun w =>
    let m := next_module w in
    (new_function FSetup ;;
     new_function (FInitXO m) ;;
     new_function (FStartFlow m) ;;
     new_function FCloseFlow ;;
     install m ;;
     ret m) w.

Definition empty_page (eligible : bool) (url : string) : World :=
  {| heap := ∅; window := ∅; trace := [];
     eligibility := eligible; checkoutUrl := url; handles := 0 |}.

Definition run {A} (c : M A) (w : World) : World := snd (c w).
Definition outcome {A} (c : M A) (w : World) : Outcome A := fst (c w).

(** ** Notions used in the statements *)

(** The address of the object [window.paypal.checkout], when
    [window.paypal] and [window.paypal.checkout] are objects. *)
Definition namespace (w : World) : option nat :=
  match window w !! "paypal" with
  | Some (VRef lp) =>
      match heap w !! lp with
      | Some op =>
          match props op !! "checkout" with
          | Some (VRef lc) =>
              match heap w !! lc with
              | Some _ => Some lc
              | None => None
              end
          | _ => None
          end
      | None => None
      end
  | _ => None
  end.

(** The slots holding the module's own [initXO], [startFlow],
    [closeFlow]. *)
Definition module_slots (m : ModuleEnv) : Slots :=
  {| s_initXO := VRef (m_initXO m);
     s_startFlow := VRef (m_startFlow m);
     s_closeFlow := VRef (m_closeFlow m) |}.

(** The world after [reset()], the namespace object being at [lc]. *)
Definition restored (m : ModuleEnv) (lc : nat) (w : World) : World :=
  store lc "closeFlow" (VRef (m_closeFlow m))
    (store lc "startFlow" (VRef (m_startFlow m))
       (store lc "initXO" (VRef (m_initXO m)) w)).

(** The world in which the body of a handler runs, after its first log
    line and [reset()]. *)
Definition entered (m : ModuleEnv) (lc : nat) (first : Call) (w : World) : World :=
  restored m lc (push first w).

(** The world after one slot has been given a new function. *)
Definition armed_slot (lc : nat) (name : string) (f : Fn) (w : World) : World :=
  store lc name (VRef (next_loc w)) (place (fn_obj f) w).

(** The world after [getPaymentToken], the namespace object being at [lc]. *)
Definition armed (m : ModuleEnv) (self resolve reject lc : nat) (w : World) : World :=
  armed_slot lc "closeFlow" (FTokenCloseFlow m self resolve reject)
    (armed_slot lc "startFlow" (FTokenStartFlow m self resolve reject)
       (armed_slot lc "initXO" FTokenInitXO w)).

(** [v] is a function object running [f]. *)
Definition runs (w : World) (v : Value) (f : Fn) : Prop :=
  callee v w = (Ret f, w).

(** The calls by which an acquisition is settled. *)
Definition is_settle (c : Call) : bool :=
  match c with
  | Resolve _ _ | Reject _ _ => true
  | _ => false
  end.


(** A redirect or a component being made or rendered. *)
Definition is_navigation (c : Call) : bool :=
  match c with
  | Redirect _ | Init _ _ | Render _ | SetAutocloseParentTemplate _ => true
  | _ => false
  end.

(** The events added to the trace between [w] and [w'], and the calls
    among them. *)
Definition since (w w' : World) : list Event := drop (length (trace w)) (trace w').

Definition calls_since (w w' : World) : list Call := map call (since w w').

(** The world after the calls [cs], in this order. *)
Definition pushes (cs : list Call) (w : World) : World :=
  fold_left (fun w' c => push c w') cs w.

(** A call, seen with the slots [sl]. *)
Definition at_slots (sl : Slots) (c : Call) : Event := {| call := c; seen := sl |}.

(** The page after the acquisition has been armed. *)
Definition after_arming (m : ModuleEnv) (self resolve reject : nat) (w : World) : World :=
  run (getPaymentToken m self resolve reject) w.

(** The empty page once the module's functions have been declared and
    installed. *)
Definition loaded_page (eligible : bool) : World :=
  run declare_and_install (empty_page eligible "https://www.paypal.com/checkoutnow").

Definition loaded_module : ModuleEnv :=
  {| m_setup := 0; m_initXO := 1; m_startFlow := 2; m_closeFlow := 3 |}.

(** That page once [startFlow] has been called with a token in an eligible
    context: one component has been made. *)
Definition rendered_page : World :=
  run (call_checkout "startFlow" (Some "ABCDE12345FGHIJ67")) (loaded_page true).

(** ** Notions used in the further properties *)

(** The value of [window.paypal.checkout], [undefined] when the path
    breaks. *)
Definition namespace_value (w : World) : Value :=
  lookup_prop (heap w) (default VUndef (window w !! "paypal")) "checkout".

(** The value of [window.PAYPAL]. *)
Definition PAYPAL_value (w : World) : Value := default VUndef (window w !! "PAYPAL").

(** The three entry points a page calls during a flow. *)
Inductive EntryPoint : Type := CallInitXO | CallStartFlow | CallCloseFlow.

Definition entry_name (e : EntryPoint) : string :=
  match e with
  | CallInitXO => "initXO"
  | CallStartFlow => "startFlow"
  | CallCloseFlow => "closeFlow"
  end.

(** The function of the module [m] behind an entry point. *)
Definition entry_function (m : ModuleEnv) (e : EntryPoint) : Fn :=
  match e with
  | CallInitXO => FInitXO m
  | CallStartFlow => FStartFlow m
  | CallCloseFlow => FCloseFlow
  end.

(** The page calls entry points of [window.paypal.checkout] one after the
    other, each with its argument.  An exception ends the call that
    raised it, not the page: the next call runs in the state left. *)
Definition page_calls (cs : list (EntryPoint * option string)) (w : World) : World :=
  fold_left (fun w' c => run (call_checkout (entry_name (fst c)) (snd c)) w') cs w.

(** The function objects of the module [m] are in the heap. *)
Definition module_at (w : World) (m : ModuleEnv) : Prop :=
  runs w (VRef (m_initXO m)) (FInitXO m) /\
  runs w (VRef (m_startFlow m)) (FStartFlow m) /\
  runs w (VRef (m_closeFlow m)) FCloseFlow.

(** The calls made to an acquisition: to its callbacks and to its
    component. *)
Definition acquisition_call (c : Call) : bool :=
  match c with
  | Resolve _ _ | Reject _ _ | UpdateProps _ _ | Close _ => true
  | _ => false
  end.

(** The calls made to the acquisition of [self], [resolve], [reject]. *)
Definition touches (self resolve reject : nat) (c : Call) : bool :=
  match c with
  | Resolve r _ => r =? resolve
  | Reject j _ => j =? reject
  | UpdateProps s _ | Close s => s =? self
  | _ => false
  end.

(** The settlements of the acquisition with the callbacks [resolve] and
    [reject]. *)
Definition settles (resolve reject : nat) (c : Call) : bool :=
  match c with
  | Resolve r _ => r =? resolve
  | Reject j _ => j =? reject
  | _ => false
  end.

(** The calls made to the acquisition of a component made after the
    first [n]: its callbacks and the component carry its handle. *)
Definition newer (n : nat) (c : Call) : bool :=
  match c with
  | Resolve k _ | Reject k _ | UpdateProps k _ | Close k => n <=? k
  | _ => false
  end.

(** How an acquisition may have been settled: not yet, resolved once
    with a token, or rejected once as closed. *)
Definition settled_once (resolve reject : nat) (l : list Call) : Prop :=
  l = [] \/ (exists t, l = [Resolve resolve (Some t)]) \/
  l = [Reject reject "Close Flow Called"].

(** No acquisition is pending: the namespace is there and its three slots
    hold the functions of the module [m]. *)
Definition idle (m : ModuleEnv) (lc : nat) (w : World) : Prop :=
  namespace w = Some lc /\ module_at w m /\ read_slots w = module_slots m.

(** The acquisition of [self], [resolve], [reject] is pending: the three
    slots hold the functions [getPaymentToken] made for it. *)
Definition pending (m : ModuleEnv) (self resolve reject lc : nat) (w : World) : Prop :=
  namespace w = Some lc /\ module_at w m /\
  runs w (slot w "initXO") FTokenInitXO /\
  runs w (slot w "startFlow") (FTokenStartFlow m self resolve reject) /\
  runs w (slot w "closeFlow") (FTokenCloseFlow m self resolve reject).

(** A value the installation can build on: [undefined], the empty string
    (both are replaced by a new object) or an object.  On a non-empty
    string a property cannot be set. *)
Definition plain (v : Value) : bool :=
  match v with
  | VStr (String _ _) => false
  | _ => true
  end.

(** The four values the installation reads and may build on:
    [window.paypal], [window.paypal.checkout], [window.PAYPAL] and
    [window.PAYPAL.apps]. *)
Definition installable (w : World) : bool :=
  plain (default VUndef (window w !! "paypal")) &&
  plain (namespace_value w) &&
  plain (PAYPAL_value w) &&
  plain (lookup_prop (heap w) (PAYPAL_value w) "apps").

(** The namespace as the module [m] installs it: the four functions, an
    [events] object with [on], and the two upper case aliases. *)
Definition installed (m : ModuleEnv) (lc : nat) (w : World) : Prop :=
  namespace w = Some lc /\
  slot w "setup" = VRef (m_setup m) /\
  read_slots w = module_slots m /\
  runs w (lookup_prop (heap w) (slot w "events") "on") FEventsOn /\
  lookup_prop (heap w) (PAYPAL_value w) "checkout" = VRef lc /\
  lookup_prop (heap w) (lookup_prop (heap w) (PAYPAL_value w) "apps") "checkout" = VRef lc.

(** While the namespace at [lc] is being filled: the namespace is this
    object, nothing has been logged since the trace [t0], the function
    objects [fs] run what they ran, and the entries [kv] are set. *)
Definition building (lc : nat) (t0 : list Event) (fs : list (Value * Fn))
    (kv : list (string * Value)) (w : World) : Prop :=
  namespace_value w = VRef lc /\
  is_Some (heap w !! lc) /\
  trace w = t0 /\
  Forall (fun vf => runs w (fst vf) (snd vf)) fs /\
  Forall (fun e => slot w (fst e) = snd e) kv.

(** [window.PAYPAL] and [window.PAYPAL.apps] can be built on. *)
Definition aliases_plain (w : World) : Prop :=
  plain (PAYPAL_value w) = true /\
  plain (lookup_prop (heap w) (PAYPAL_value w) "apps") = true.

(** The [events] object of the namespace has a method [on]. *)
Definition events_ready (w : World) : Prop :=
  runs w (lookup_prop (heap w) (slot w "events") "on") FEventsOn.

(** The branch of the installation that fills the namespace, as it stands
    in [install]. *)
Definition fill_namespace (m : ModuleEnv) : M unit :=
  assign_checkout "setup" (ret (VRef (m_setup m))) ;;
  assign_checkout "initXO" (ret (VRef (m_initXO m))) ;;
  assign_checkout "startFlow" (ret (VRef (m_startFlow m))) ;;
  assign_checkout "closeFlow" (ret (VRef (m_closeFlow m))) ;;
  assign_checkout "events"
    (e ← new_object; on ← new_function FEventsOn; set_prop e "on" on ;; ret e) ;;
  (P ← default_object (get_window "PAYPAL"); set_window "PAYPAL" P) ;;
  (base ← get_window "PAYPAL";
   c ← checkout_namespace;
   set_prop base "checkout" c) ;;
  (base ← get_window "PAYPAL";
   a ← default_object (get_prop base "apps");
   set_prop base "apps" a) ;;
  (P ← get_window "PAYPAL";
   base ← get_prop P "apps";
   c ← checkout_namespace;
   set_prop base "checkout" c).

(** * Facts about strings *)

Section StringFacts.

Lemma str_app_cons a s t : String a s +:+ t = String a (s +:+ t).
Proof. reflexivity. Qed.

Lemma str_app_nil_l s : EmptyString +:+ s = s.
Proof. reflexivity. Qed.

Lemma str_app_nil_r s : s +:+ EmptyString = s.
Proof. induction s as [|a s IH]; [reflexivity|]. by rewrite str_app_cons, IH. Qed.

Lemma str_app_assoc s t u : (s +:+ t) +:+ u = s +:+ t +:+ u.
Proof. induction s as [|a s IH]; [reflexivity|]. by rewrite !str_app_cons, IH. Qed.

Lemma str_length_app s t : String.length (s +:+ t) = String.length s + String.length t.
Proof. induction s as [|a s IH]; [reflexivity|]. rewrite str_app_cons. simpl. by rewrite IH. Qed.

Lemma str_all_app p s t : Str.all p (s +:+ t) = Str.all p s && Str.all p t.
Proof.
  induction s as [|a s IH]; [reflexivity|].
  rewrite str_app_cons. simpl. rewrite IH. by rewrite andb_assoc.
Qed.

Lemma str_take_drop n s : Str.take n s +:+ Str.drop n s = s.
Proof.
  revert s. induction n as [|n IH]; intros [|a s]; try reflexivity.
  simpl. by rewrite str_app_cons, IH.
Qed.

Lemma str_length_take n s : n <= String.length s -> String.length (Str.take n s) = n.
Proof.
  revert s. induction n as [|n IH]; intros [|a s] H; simpl in *; try lia.
  by rewrite IH by lia.
Qed.

Lemma str_all_take p n s : Str.all p s = true -> Str.all p (Str.take n s) = true.
Proof.
  revert s. induction n as [|n IH]; intros [|a s] H; simpl in *; try done.
  apply andb_true_iff in H as [-> H]. simpl. by apply IH.
Qed.

End StringFacts.

(** * The parser on concrete inputs *)

Example parse_bare : parseToken (Some "ABCDE12345FGHIJ67") = Some "ABCDE12345FGHIJ67".
Proof. reflexivity. Qed.

Example parse_bare_prefixed :
  parseToken (Some "EC-ABCDE12345FGHIJ67") = Some "EC-ABCDE12345FGHIJ67".
Proof. reflexivity. Qed.

Example parse_url :
  parseToken (Some "https://www.paypal.com/checkoutnow?token=EC-ABCDE12345FGHIJ67&useraction=commit")
  = Some "EC-ABCDE12345FGHIJ67".
Proof. reflexivity. Qed.

Example parse_first_of_two :
  parseToken (Some "a?token=AAAAAAAAAAAAAAAAA&b?token=BBBBBBBBBBBBBBBBB")
  = Some "AAAAAAAAAAAAAAAAA".
Proof. reflexivity. Qed.

Example parse_lowercase : parseToken (Some "abcde12345fghij67") = None.
Proof. reflexivity. Qed.

Example parse_short_parameter : parseToken (Some "x?token=ABCDE12345") = None.
Proof. reflexivity. Qed.

(** * The page on concrete inputs *)

Example declare_and_install_result :
  outcome declare_and_install (empty_page true "https://www.paypal.com/checkoutnow")
  = Ret loaded_module.
Proof. vm_compute. reflexivity. Qed.

Example loaded_page_slots :
  read_slots (loaded_page true) = module_slots loaded_module /\
  slot (loaded_page true) "setup" = VRef (m_setup loaded_module).
Proof. split; vm_compute; reflexivity. Qed.

Example loaded_page_aliases :
  lookup_prop (heap (loaded_page true))
    (default VUndef (window (loaded_page true) !! "PAYPAL")) "checkout"
  = VRef 5 /\
  namespace (loaded_page true) = Some 5.
Proof. split; vm_compute; reflexivity. Qed.

Example idle_closeFlow :
  calls (run (call_checkout "closeFlow" None) (loaded_page true))
  = [Log LevelDebug "closeflow" [];
     ConsoleWarn "Checkout is not open, can not be closed"].
Proof. vm_compute. reflexivity. Qed.

Example idle_startFlow_renders :
  calls (run (call_checkout "startFlow" (Some "ABCDE12345FGHIJ67")) (loaded_page true))
  = [Log LevelDebug "startflow" [("token", Some "ABCDE12345FGHIJ67")];
     IsEligible true;
     Log LevelInfo "init_checkout" [];
     SetAutocloseParentTemplate false;
     Init {| p_uid := VUndef;
             p_paymentToken := TokenValue (Some "ABCDE12345FGHIJ67");
             p_url := UrlNull |} 0;
     Render 0].
Proof. vm_compute. reflexivity. Qed.

Example second_install_is_refused :
  calls (run declare_and_install (loaded_page true)) = [ConsoleError install_error] /\
  read_slots (run declare_and_install (loaded_page true)) = read_slots (loaded_page true) /\
  slot (run declare_and_install (loaded_page true)) "setup" = slot (loaded_page true) "setup".
Proof. repeat split; vm_compute; reflexivity. Qed.

Example armed_initXO_only_logs :
  calls (run (call_checkout "initXO" None)
           (after_arming loaded_module 7 8 9 (loaded_page true)))
  = [Log LevelDebug "paymenttoken_initxo" []].
Proof. vm_compute. reflexivity. Qed.

(** * Facts about the token parser *)

Section ParserFacts.

Lemma literal_app lit r : Str.literal lit (lit +:+ r) = Some r.
Proof.
  induction lit as [|a lit IH]; [reflexivity|].
  rewrite str_app_cons. simpl. by rewrite Ascii.eqb_refl.
Qed.

Lemma literal_inv lit s r : Str.literal lit s = Some r -> s = lit +:+ r.
Proof.
  revert s. induction lit as [|a lit IH]; intros s H; simpl in H.
  - by inversion H.
  - destruct s as [|d s]; [done|].
    destruct (Ascii.eqb_spec a d) as [->|]; [|done].
    rewrite str_app_cons. f_equal. by apply IH.
Qed.

Lemma class_run_app n b r :
  String.length b = n -> Str.all isUpperAlnum b = true ->
  class_run n (b +:+ r) = Some (b, r).
Proof.
  revert n. induction b as [|a b IH]; intros n Hn Hall; simpl in Hn; subst n.
  - reflexivity.
  - simpl in Hall. apply andb_true_iff in Hall as [Ha Hb].
    rewrite str_app_cons. simpl. rewrite Ha. by rewrite (IH _ eq_refl Hb).
Qed.

Lemma class_run_inv n s b r :
  class_run n s = Some (b, r) ->
  s = b +:+ r /\ String.length b = n /\ Str.all isUpperAlnum b = true.
Proof.
  revert s b. induction n as [|n IH]; intros s b H; simpl in H.
  - inversion H; subst. done.
  - destruct s as [|a s]; [done|].
    destruct (isUpperAlnum a) eqn:Ha; [|done].
    destruct (class_run n s) as [[b' r']|] eqn:Hrun; [|done].
    inversion H; subst. destruct (IH _ _ Hrun) as (-> & Hlen & Hall).
    rewrite str_app_cons. simpl. rewrite Ha, Hall, Hlen. done.
Qed.

Lemma dash_not_in_class a : isUpperAlnum a = true -> a <> "-"%char.
Proof. intros H ->. discriminate H. Qed.

(** A token body never starts with the optional prefix. *)
Lemma body_no_prefix b r : Body b -> Str.literal "EC-" (b +:+ r) = None.
Proof.
  intros [Hlen Hall].
  destruct b as [|x [|y [|z b]]]; try discriminate Hlen.
  simpl in Hall. apply andb_true_iff in Hall as [_ Hall].
  apply andb_true_iff in Hall as [_ Hall].
  apply andb_true_iff in Hall as [Hz _].
  rewrite !str_app_cons. cbn [Str.literal].
  destruct (Ascii.eqb "E" x); [|done].
  destruct (Ascii.eqb "C" y); [|done].
  destruct (Ascii.eqb_spec "-" z) as [<-|]; [discriminate Hz|done].
Qed.

Lemma token_pattern_canonical anchored c r :
  Canonical c -> (anchored = true -> r = EmptyString) ->
  token_pattern anchored (c +:+ r) = Some c.
Proof.
  intros (b & Hb & [->| ->]) Hr; unfold token_pattern.
  - rewrite (body_no_prefix b r Hb).
    destruct Hb as [Hlen Hall]. rewrite (class_run_app 17 b r Hlen Hall).
    destruct anchored; [|done]. by rewrite Hr.
  - rewrite str_app_assoc, literal_app.
    destruct Hb as [Hlen Hall]. rewrite (class_run_app 17 b r Hlen Hall).
    destruct anchored; [|done]. by rewrite Hr.
Qed.

Lemma token_pattern_inv anchored s t :
  token_pattern anchored s = Some t ->
  Canonical t /\ exists r, s = t +:+ r /\ (anchored = true -> r = EmptyString).
Proof.
  unfold token_pattern. intros H.
  assert (Hend : forall r, (if anchored then Str.is_empty r else true) = true ->
                           anchored = true -> r = EmptyString).
  { intros r Hr ->. by destruct r. }
  destruct (Str.literal "EC-" s) as [s1|] eqn:Hlit.
  - destruct (class_run 17 s1) as [[b r]|] eqn:Hrun.
    + destruct (if anchored then Str.is_empty r else true) eqn:Hr.
      * inversion H; subst t.
        apply class_run_inv in Hrun as (-> & Hlen & Hall).
        apply literal_inv in Hlit as ->. split.
        -- exists b. split; [done|by right].
        -- exists r. rewrite str_app_assoc. split; [done|by apply Hend].
      * destruct (class_run 17 s) as [[b' r']|] eqn:Hrun'; [|done].
        apply literal_inv in Hlit. subst s.
        apply class_run_inv in Hrun' as (Heq & Hlen & Hall).
        exfalso. destruct b' as [|x [|y [|z b']]]; try discriminate Hlen.
        rewrite !str_app_cons in Heq. inversion Heq; subst.
        simpl in Hall. discriminate Hall.
    + destruct (class_run 17 s) as [[b' r']|] eqn:Hrun'; [|done].
      apply literal_inv in Hlit. subst s.
      apply class_run_inv in Hrun' as (Heq & Hlen & Hall).
      exfalso. destruct b' as [|x [|y [|z b']]]; try discriminate Hlen.
      rewrite !str_app_cons in Heq. inversion Heq; subst.
      simpl in Hall. discriminate Hall.
  - destruct (class_run 17 s) as [[b r]|] eqn:Hrun; [|done].
    destruct (if anchored then Str.is_empty r else true) eqn:Hr; [|done].
    inversion H; subst t.
    apply class_run_inv in Hrun as (-> & Hlen & Hall). split.
    + exists b. split; [done|by left].
    + exists r. split; [done|by apply Hend].
Qed.

Lemma match_bare_iff s : match_bare s = true <-> Canonical s.
Proof.
  unfold match_bare. split.
  - destruct (token_pattern true s) as [t|] eqn:H; [|done]. intros _.
    apply token_pattern_inv in H as (Hc & r & -> & Hr).
    rewrite (Hr eq_refl), str_app_nil_r. done.
  - intros Hc. rewrite <- (str_app_nil_r s).
    by rewrite (token_pattern_canonical true s EmptyString Hc).
Qed.

Lemma TokenAt_zero s c : TokenAt s 0 c <-> match_here s = Some c.
Proof.
  unfold match_here. split.
  - intros (pre & post & -> & Hlen & Hc).
    destruct pre; [|discriminate Hlen].
    change (EmptyString +:+ "token=" +:+ c +:+ post) with ("token=" +:+ c +:+ post).
    rewrite (literal_app "token=" (c +:+ post)).
    by apply token_pattern_canonical.
  - destruct (Str.literal "token=" s) as [s1|] eqn:Hlit; [|done]. intros H.
    apply literal_inv in Hlit as ->.
    apply token_pattern_inv in H as (Hc & r & -> & _).
    by exists EmptyString, r.
Qed.

Lemma TokenAt_succ a s i c : TokenAt (String a s) (S i) c <-> TokenAt s i c.
Proof.
  split.
  - intros (pre & post & Heq & Hlen & Hc).
    destruct pre as [|x pre]; [discriminate Hlen|].
    rewrite str_app_cons in Heq. inversion Heq; subst. inversion Hlen.
    by exists pre, post.
  - intros (pre & post & -> & Hlen & Hc).
    exists (String a pre), post. simpl. by rewrite Hlen.
Qed.

Lemma TokenAt_empty i c : ~ TokenAt EmptyString i c.
Proof.
  intros (pre & post & Heq & _ & _).
  apply (f_equal String.length) in Heq. rewrite !str_length_app in Heq.
  simpl in Heq. lia.
Qed.

Lemma TokenAt_unique s i c c' : TokenAt s i c -> TokenAt s i c' -> c = c'.
Proof.
  revert s. induction i as [|i IH]; intros s H H'.
  - apply TokenAt_zero in H, H'. congruence.
  - destruct s as [|a s]; [by apply TokenAt_empty in H|].
    apply TokenAt_succ in H, H'. by apply (IH s).
Qed.

Lemma match_url_none s : match_url s = None <-> forall i c, ~ TokenAt s i c.
Proof.
  induction s as [|a s IH]; simpl.
  - split; [intros _ i c; apply TokenAt_empty|done].
  - destruct (match_here (String a s)) as [t|] eqn:Hh.
    + split; [done|]. intros H. apply TokenAt_zero in Hh. by apply H in Hh.
    + rewrite IH. split.
      * intros H [|i] c Hat; [apply TokenAt_zero in Hat; congruence|].
        apply TokenAt_succ in Hat. by apply H in Hat.
      * intros H i c Hat. apply (H (S i) c). by apply TokenAt_succ.
Qed.

Lemma match_url_first s c : match_url s = Some c -> FirstToken s c.
Proof.
  induction s as [|a s IH]; simpl.
  - done.
  - destruct (match_here (String a s)) as [t|] eqn:Hh.
    + intros [= ->]. exists 0. split; [by apply TokenAt_zero|lia].
    + intros H. destruct (IH H) as (i & Hat & Hmin).
      exists (S i). split; [by apply TokenAt_succ|].
      intros [|j] c' Hj; [apply TokenAt_zero in Hj; congruence|].
      apply TokenAt_succ, Hmin in Hj. lia.
Qed.

(** The URL pattern returns the token of the leftmost [token=<canonical>]. *)
Lemma match_url_spec s c : match_url s = Some c <-> FirstToken s c.
Proof.
  split; [apply match_url_first|].
  intros (i & Hat & Hmin).
  destruct (match_url s) as [c'|] eqn:Hm.
  - destruct (match_url_first _ _ Hm) as (i' & Hat' & Hmin').
    assert (i = i') as <-.
    { apply Hmin in Hat'. apply Hmin' in Hat. lia. }
    f_equal. by apply (TokenAt_unique s i).
  - exfalso. by apply (proj1 (match_url_none s) Hm i c).
Qed.

(** Every character of a canonical token is of the class, or a dash. *)
Lemma canonical_chars s :
  Canonical s ->
  Str.all (fun a => isUpperAlnum a || Ascii.eqb a "-") s = true.
Proof.
  assert (Hweak : forall b, Str.all isUpperAlnum b = true ->
            Str.all (fun a => isUpperAlnum a || Ascii.eqb a "-") b = true).
  { induction b as [|a b IH]; [done|]. simpl.
    intros [-> Hb]%andb_true_iff. simpl. by apply IH. }
  intros (b & [_ Hall] & [->| ->]); [by apply Hweak|].
  rewrite str_all_app. by rewrite (Hweak b Hall).
Qed.

Lemma canonical_no_parameter s : Canonical s -> ~ Str.Occurs "token=" s.
Proof.
  intros Hc (pre & post & ->). apply canonical_chars in Hc.
  rewrite str_all_app in Hc. apply andb_true_iff in Hc as [_ Hc].
  discriminate Hc.
Qed.

Lemma TokenAt_occurs s i c : TokenAt s i c -> Str.Occurs "token=" s.
Proof. intros (pre & post & -> & _ & _). by exists pre, (c +:+ post). Qed.

Lemma canonical_not_empty s : Canonical s -> Str.is_empty s = false.
Proof.
  intros (b & [Hlen _] & [->| ->]); [|done]. by destruct b.
Qed.

Lemma parseToken_canonical s : Canonical s -> parseToken (Some s) = Some s.
Proof.
  intros Hc. unfold parseToken.
  rewrite (canonical_not_empty s Hc). by rewrite (proj2 (match_bare_iff s) Hc).
Qed.

(** On a string that holds a [token=] parameter, [parseToken] is the
    URL pattern. *)
Lemma parseToken_url s :
  Str.Occurs "token=" s -> parseToken (Some s) = match_url s.
Proof.
  intros Hocc. unfold parseToken.
  destruct s as [|a s].
  - destruct Hocc as (pre & post & Heq).
    apply (f_equal String.length) in Heq. rewrite !str_length_app in Heq.
    simpl in Heq. lia.
  - cbn [Str.is_empty].
    destruct (match_bare (String a s)) eqn:Hb; [|done].
    apply match_bare_iff in Hb. by apply canonical_no_parameter in Hb.
Qed.

(** Whatever [parseToken] returns is a canonical token. *)
Lemma parseToken_canonical_result token t :
  parseToken token = Some t -> Canonical t.
Proof.
  destruct token as [s|]; [|done]. unfold parseToken.
  destruct (Str.is_empty s); [done|].
  destruct (match_bare s) eqn:Hb.
  - intros [= <-]. by apply match_bare_iff.
  - intros (i & (_ & _ & _ & _ & Hc) & _)%match_url_first. done.
Qed.

Lemma is_body_iff b : is_body b = true <-> Body b.
Proof.
  unfold is_body, Body. rewrite andb_true_iff, Nat.eqb_eq. done.
Qed.

Lemma canonical_iff s : canonical s = true <-> Canonical s.
Proof.
  unfold canonical, Canonical. rewrite orb_true_iff. split.
  - intros [H|H].
    + exists s. split; [by apply is_body_iff|by left].
    + destruct (Str.literal "EC-" s) as [b|] eqn:Hlit; [|done].
      apply literal_inv in Hlit as ->.
      exists b. split; [by apply is_body_iff|by right].
  - intros (b & Hb & [->| ->]).
    + left. by apply is_body_iff.
    + right. rewrite literal_app. by apply is_body_iff.
Qed.

Lemma not_canonical s : canonical s = false -> ~ Canonical s.
Proof. intros H Hc%canonical_iff. congruence. Qed.

Lemma contains_occurs sub s : Str.contains sub s = true <-> Str.Occurs sub s.
Proof.
  induction s as [|a s IH]; simpl.
  - destruct (Str.literal sub EmptyString) as [r|] eqn:Hlit.
    + split; [intros _|done]. apply literal_inv in Hlit.
      exists EmptyString, r. done.
    + split; [done|]. intros ([|x pre] & post & Heq); [|discriminate Heq].
      rewrite str_app_nil_l in Heq. rewrite Heq, literal_app in Hlit. done.
  - destruct (Str.literal sub (String a s)) as [r|] eqn:Hlit.
    + split; [intros _|done]. apply literal_inv in Hlit.
      exists EmptyString, r. done.
    + rewrite IH. split.
      * intros (pre & post & ->). by exists (String a pre), post.
      * intros ([|x pre] & post & Heq).
        -- rewrite str_app_nil_l in Heq. rewrite Heq, literal_app in Hlit. done.
        -- rewrite str_app_cons in Heq. inversion Heq; subst. by exists pre, post.
Qed.

Lemma not_contains sub s : Str.contains sub s = false -> ~ Str.Occurs sub s.
Proof. intros H Ho%contains_occurs. congruence. Qed.

(** [token=] has no border: where it does not start inside [pre], it
    does not start inside [pre] followed by [token=] either. *)
Lemma literal_no_overlap x pre rest :
  Str.literal "token=" (String x pre) = None ->
  Str.literal "token=" (String x pre +:+ "token=" +:+ rest) = None.
Proof.
  destruct pre as [|a2 [|a3 [|a4 [|a5 [|a6 pre]]]]];
    rewrite ?str_app_cons; cbn [Str.literal String.append]; intros H;
    repeat match goal with
      | |- context [Ascii.eqb ?u ?v] =>
          let E := fresh "E" in
          destruct (Ascii.eqb u v) eqn:E; try (vm_compute in E; discriminate E)
      end;
    try done.
  all: repeat match goal with
      | E : Ascii.eqb _ _ = true |- _ => rewrite E in H
      end; done.
Qed.

Lemma match_url_after pre c post :
  Canonical c -> Str.contains "token=" pre = false ->
  match_url (pre +:+ "token=" +:+ c +:+ post) = Some c.
Proof.
  intros Hc. induction pre as [|x pre IH]; intros Hpre.
  - apply match_url_spec. exists 0. split; [|lia].
    by exists EmptyString, post.
  - cbn [Str.contains] in Hpre.
    destruct (Str.literal "token=" (String x pre)) eqn:Hlit; [done|].
    assert (Hh : match_here (String x (pre +:+ "token=" +:+ c +:+ post)) = None).
    { unfold match_here. rewrite <- str_app_cons.
      by rewrite (literal_no_overlap x pre (c +:+ post) Hlit). }
    rewrite str_app_cons. cbn [match_url]. rewrite Hh. by apply IH.
Qed.

Lemma parse_holds_token pre c post :
  Canonical c ->
  exists c', FirstToken (pre +:+ "token=" +:+ c +:+ post) c' /\ Canonical c' /\
             parseToken (Some (pre +:+ "token=" +:+ c +:+ post)) = Some c'.
Proof.
  intros Hc. set (s := pre +:+ "token=" +:+ c +:+ post).
  assert (Hat : TokenAt s (String.length pre) c) by by exists pre, post.
  rewrite (parseToken_url s (TokenAt_occurs s _ c Hat)).
  destruct (match_url s) as [c'|] eqn:Hm.
  - exists c'. split; [by apply match_url_spec|]. split; [|done].
    apply match_url_first in Hm as (i & (_ & _ & _ & _ & Hc') & _). done.
  - exfalso. by apply (proj1 (match_url_none s) Hm (String.length pre) c).
Qed.

Lemma parse_single_token pre c post :
  Canonical c -> Str.contains "token=" pre = false ->
  parseToken (Some (pre +:+ "token=" +:+ c +:+ post)) = Some c.
Proof.
  intros Hc Hpre. rewrite parseToken_url by by exists pre, (c +:+ post).
  by apply match_url_after.
Qed.

Lemma parse_first_token s c : FirstToken s c -> parseToken (Some s) = Some c.
Proof.
  intros Hfirst. destruct Hfirst as (i & Hat & Hmin).
  rewrite (parseToken_url s (TokenAt_occurs s i c Hat)).
  apply match_url_spec. by exists i.
Qed.

Lemma parse_only_token pre c post :
  Canonical c ->
  (forall j c', TokenAt (pre +:+ "token=" +:+ c +:+ post) j c' -> c' = c) ->
  parseToken (Some (pre +:+ "token=" +:+ c +:+ post)) = Some c.
Proof.
  intros Hc Honly.
  destruct (parse_holds_token pre c post Hc) as (c' & (i & Hat & _) & _ & ->).
  f_equal. by apply (Honly i).
Qed.

Lemma parse_no_parameter s :
  Str.contains "token=" s = false -> canonical s = false ->
  parseToken (Some s) = None.
Proof.
  intros Hs Hc. unfold parseToken. destruct (Str.is_empty s); [done|].
  destruct (match_bare s) eqn:Hb.
  - apply match_bare_iff, canonical_iff in Hb. congruence.
  - apply match_url_none. intros i c Hat%TokenAt_occurs.
    by apply (not_contains _ _ Hs).
Qed.

(** The first seventeen characters of a longer run, behind the prefix. *)
Lemma long_run_head ec run :
  (ec = EmptyString \/ ec = "EC-") ->
  Str.all isUpperAlnum run = true -> 17 < String.length run ->
  Canonical (ec +:+ Str.take 17 run).
Proof.
  intros Hec Hall Hlen. exists (Str.take 17 run). split.
  - split; [apply str_length_take; lia|by apply str_all_take].
  - destruct Hec as [->| ->]; [by left|by right].
Qed.

Lemma long_run_split pre ec run post :
  pre +:+ "token=" +:+ ec +:+ run +:+ post
  = pre +:+ "token=" +:+ (ec +:+ Str.take 17 run) +:+ (Str.drop 17 run +:+ post).
Proof.
  rewrite (str_app_assoc ec). rewrite <- (str_app_assoc (Str.take 17 run)).
  by rewrite str_take_drop.
Qed.

Lemma long_run_not_canonical ec run :
  (ec = EmptyString \/ ec = "EC-") ->
  Str.all isUpperAlnum run = true -> 17 < String.length run ->
  canonical (ec +:+ run) = false.
Proof.
  intros Hec Hall Hlen.
  destruct (canonical (ec +:+ run)) eqn:Hc; [|done]. exfalso.
  apply canonical_iff in Hc as (b & [Hb Hball] & Heq).
  assert (Hdash : forall x y, Str.all isUpperAlnum ("EC-" +:+ x +:+ y) = false).
  { intros x y. reflexivity. }
  destruct Hec as [->| ->], Heq as [Heq|Heq].
  - rewrite str_app_nil_l in Heq. subst b. lia.
  - rewrite str_app_nil_l in Heq. subst run.
    specialize (Hdash b EmptyString). rewrite str_app_nil_r in Hdash. congruence.
  - subst b. specialize (Hdash run EmptyString).
    rewrite str_app_nil_r in Hdash. congruence.
  - apply String.app_inj in Heq. subst b. lia.
Qed.

End ParserFacts.

(** * Facts about the page *)

Section WorldFacts.

Lemma bind_ret {A B} (c : M A) (k : A -> M B) w a w' :
  c w = (Ret a, w') -> bind c k w = k a w'.
Proof. unfold bind. by intros ->. Qed.

Lemma bind_throw {A B} (c : M A) (k : A -> M B) w e w' :
  c w = (Throw e, w') -> bind c k w = (Throw e, w').
Proof. unfold bind. by intros ->. Qed.

Lemma namespace_inv w lc :
  namespace w = Some lc ->
  exists lp op oc,
    window w !! "paypal" = Some (VRef lp) /\ heap w !! lp = Some op /\
    props op !! "checkout" = Some (VRef lc) /\ heap w !! lc = Some oc.
Proof. unfold namespace. repeat case_match; naive_solver. Qed.

Lemma namespace_intro w lp op lc oc :
  window w !! "paypal" = Some (VRef lp) -> heap w !! lp = Some op ->
  props op !! "checkout" = Some (VRef lc) -> heap w !! lc = Some oc ->
  namespace w = Some lc.
Proof. unfold namespace. by intros -> -> -> ->. Qed.

Lemma slot_namespace w lc name :
  namespace w = Some lc -> slot w name = lookup_prop (heap w) (VRef lc) name.
Proof.
  intros (lp & op & oc & Hw & Hp & Hc & Hl)%namespace_inv.
  unfold slot. rewrite Hw. simpl. rewrite Hp. unfold obj_get. by rewrite Hc.
Qed.

Lemma checkout_namespace_run w lc :
  namespace w = Some lc -> checkout_namespace w = (Ret (VRef lc), w).
Proof.
  intros (lp & op & oc & Hw & Hp & Hc & Hl)%namespace_inv.
  unfold checkout_namespace, bind, get_window, get_prop. rewrite Hw. simpl.
  rewrite Hp. unfold obj_get. by rewrite Hc.
Qed.

(** *** Calls do not touch the heap *)

Lemma namespace_push c w : namespace (push c w) = namespace w.
Proof. reflexivity. Qed.

Lemma read_slots_push c w : read_slots (push c w) = read_slots w.
Proof. reflexivity. Qed.

Lemma slot_push c w name : slot (push c w) name = slot w name.
Proof. reflexivity. Qed.

Lemma calls_push c w : calls (push c w) = calls w ++ [c].
Proof. unfold calls, push. simpl. by rewrite map_app. Qed.

Lemma trace_push c w :
  trace (push c w) = trace w ++ [ {| call := c; seen := read_slots w |} ].
Proof. reflexivity. Qed.

(** *** Writing a property of the namespace object *)

Lemma namespace_store w lc p v :
  namespace w = Some lc -> p <> "checkout" ->
  namespace (store lc p v w) = Some lc.
Proof.
  intros (lp & op & oc & Hw & Hp & Hc & Hl)%namespace_inv Hne.
  destruct (decide (lp = lc)) as [->|Hlp].
  - apply (namespace_intro _ lc (obj_set p v oc) lc (obj_set p v oc)); simpl;
      rewrite ?Hl; simpl; rewrite ?lookup_insert_eq; try done.
    rewrite lookup_insert_ne by done. congruence.
  - apply (namespace_intro _ lp op lc (obj_set p v oc)); simpl;
      rewrite ?Hl; simpl; try done.
    + by rewrite lookup_insert_ne.
    + by rewrite lookup_insert_eq.
Qed.

Lemma slot_store w lc p v q :
  namespace w = Some lc -> p <> "checkout" ->
  slot (store lc p v w) q = if decide (q = p) then v else slot w q.
Proof.
  intros Hns Hne.
  rewrite (slot_namespace _ lc) by by apply namespace_store.
  rewrite (slot_namespace w lc) by done.
  apply namespace_inv in Hns as (lp & op & oc & Hw & Hp & Hc & Hl).
  simpl. rewrite lookup_insert_eq, Hl. unfold obj_get. simpl.
  case_decide as Hq.
  - subst q. by rewrite lookup_insert_eq.
  - by rewrite lookup_insert_ne.
Qed.

(** *** Making an object *)

Lemma next_loc_fresh w : heap w !! next_loc w = None.
Proof. unfold next_loc. apply not_elem_of_dom, is_fresh. Qed.

Lemma lookup_place o w l x :
  heap w !! l = Some x -> heap (place o w) !! l = Some x.
Proof.
  intros H. simpl. rewrite lookup_insert_ne; [done|].
  intros <-. rewrite next_loc_fresh in H. done.
Qed.

Lemma namespace_place o w lc :
  namespace w = Some lc -> namespace (place o w) = Some lc.
Proof.
  intros (lp & op & oc & Hw & Hp & Hc & Hl)%namespace_inv.
  apply (namespace_intro _ lp op lc oc); try done; by apply lookup_place.
Qed.

Lemma slot_place o w lc q :
  namespace w = Some lc -> slot (place o w) q = slot w q.
Proof.
  intros Hns.
  rewrite (slot_namespace _ lc) by by apply namespace_place.
  rewrite (slot_namespace w lc) by done.
  apply namespace_inv in Hns as (lp & op & oc & Hw & Hp & Hc & Hl).
  simpl. rewrite Hl. rewrite lookup_insert_ne; [by rewrite Hl|].
  intros E. pose proof (next_loc_fresh w) as Hf. rewrite E, Hl in Hf. done.
Qed.

(** *** Function objects *)

Lemma runs_inv w v f :
  runs w v f <-> exists l o, v = VRef l /\ heap w !! l = Some o /\ code o = Some f.
Proof.
  unfold runs, callee. split.
  - destruct v as [| |l]; try done.
    destruct (heap w !! l) as [[ps [g|]]|] eqn:H; try done.
    intros [= ->]. by exists l, {| props := ps; code := Some f |}.
  - intros (l & [ps g] & -> & H & Hc). simpl in Hc. subst g. by rewrite H.
Qed.

Lemma runs_push c w v f : runs w v f -> runs (push c w) v f.
Proof. rewrite !runs_inv. done. Qed.

Lemma runs_store w l p x v f : runs w v f -> runs (store l p x w) v f.
Proof.
  rewrite !runs_inv. intros (l0 & o & -> & H & Hc).
  destruct (decide (l = l0)) as [->|Hne].
  - exists l0, (obj_set p x o). simpl. rewrite H. simpl.
    by rewrite lookup_insert_eq.
  - exists l0, o. simpl. by rewrite lookup_insert_ne.
Qed.

Lemma runs_place w o v f : runs w v f -> runs (place o w) v f.
Proof.
  rewrite !runs_inv. intros (l0 & x & -> & H & Hc).
  exists l0, x. split; [done|]. split; [by apply lookup_place|done].
Qed.

Lemma runs_new w f : runs (place (fn_obj f) w) (VRef (next_loc w)) f.
Proof.
  apply runs_inv. exists (next_loc w), (fn_obj f). simpl.
  by rewrite lookup_insert_eq.
Qed.

(** *** Assignments to the slots *)

Lemma assign_value w lc name v :
  namespace w = Some lc ->
  assign_checkout name (ret v) w = (Ret tt, store lc name v w).
Proof.
  intros Hns. unfold assign_checkout.
  by rewrite (bind_ret _ _ _ _ _ (checkout_namespace_run w lc Hns)).
Qed.

Lemma assign_function w lc name f :
  namespace w = Some lc ->
  assign_checkout name (new_function f) w = (Ret tt, armed_slot lc name f w).
Proof.
  intros Hns. unfold assign_checkout.
  by rewrite (bind_ret _ _ _ _ _ (checkout_namespace_run w lc Hns)).
Qed.

Lemma namespace_armed_slot w lc name f :
  namespace w = Some lc -> name <> "checkout" ->
  namespace (armed_slot lc name f w) = Some lc.
Proof. intros Hns Hne. by apply namespace_store; [apply namespace_place|]. Qed.

Lemma slot_armed_slot w lc name f q :
  namespace w = Some lc -> name <> "checkout" ->
  slot (armed_slot lc name f w) q
  = if decide (q = name) then VRef (next_loc w) else slot w q.
Proof.
  intros Hns Hne. unfold armed_slot.
  rewrite slot_store by (by try apply namespace_place).
  by rewrite (slot_place _ w lc).
Qed.

Lemma runs_armed_slot w lc name f v g :
  runs w v g -> runs (armed_slot lc name f w) v g.
Proof. intros H. by apply runs_store, runs_place. Qed.

Lemma runs_armed_slot_new w lc name f :
  runs (armed_slot lc name f w) (VRef (next_loc w)) f.
Proof. apply runs_store, runs_new. Qed.

(** *** [reset] *)

Lemma reset_run m w lc :
  namespace w = Some lc -> reset m w = (Ret tt, restored m lc w).
Proof.
  intros Hns. unfold reset, restored.
  rewrite (bind_ret _ _ _ _ _ (assign_value w lc _ _ Hns)).
  assert (H1 : namespace (store lc "initXO" (VRef (m_initXO m)) w) = Some lc)
    by by apply namespace_store.
  rewrite (bind_ret _ _ _ _ _ (assign_value _ lc _ _ H1)).
  apply assign_value. by apply namespace_store.
Qed.

Lemma namespace_restored m w lc :
  namespace w = Some lc -> namespace (restored m lc w) = Some lc.
Proof. intros Hns. unfold restored. by repeat apply namespace_store. Qed.

Lemma read_slots_restored m w lc :
  namespace w = Some lc -> read_slots (restored m lc w) = module_slots m.
Proof.
  intros Hns. unfold read_slots, restored, module_slots.
  rewrite !slot_store by (by repeat apply namespace_store).
  done.
Qed.

Lemma trace_restored m w lc : trace (restored m lc w) = trace w.
Proof. reflexivity. Qed.

Lemma eligibility_restored m w lc : eligibility (restored m lc w) = eligibility w.
Proof. reflexivity. Qed.

Lemma checkoutUrl_restored m w lc : checkoutUrl (restored m lc w) = checkoutUrl w.
Proof. reflexivity. Qed.

(** *** [getPaymentToken] *)

Lemma getPaymentToken_run m self resolve reject w lc :
  namespace w = Some lc ->
  getPaymentToken m self resolve reject w = (Ret tt, armed m self resolve reject lc w).
Proof.
  intros Hns. unfold getPaymentToken, armed.
  rewrite (bind_ret _ _ _ _ _ (assign_function w lc _ _ Hns)).
  assert (H1 : namespace (armed_slot lc "initXO" FTokenInitXO w) = Some lc)
    by by apply namespace_armed_slot.
  rewrite (bind_ret _ _ _ _ _ (assign_function _ lc _ _ H1)).
  apply assign_function. by apply namespace_armed_slot.
Qed.

Lemma namespace_armed m self resolve reject w lc :
  namespace w = Some lc -> namespace (armed m self resolve reject lc w) = Some lc.
Proof. intros Hns. unfold armed. by repeat apply namespace_armed_slot. Qed.

Lemma trace_armed m self resolve reject w lc :
  trace (armed m self resolve reject lc w) = trace w.
Proof. reflexivity. Qed.

Lemma eligibility_armed m self resolve reject w lc :
  eligibility (armed m self resolve reject lc w) = eligibility w.
Proof. reflexivity. Qed.

Lemma checkoutUrl_armed m self resolve reject w lc :
  checkoutUrl (armed m self resolve reject lc w) = checkoutUrl w.
Proof. reflexivity. Qed.

(** After arming, each slot holds the function made for it. *)
Lemma armed_runs m self resolve reject w lc :
  namespace w = Some lc ->
  let w' := armed m self resolve reject lc w in
  runs w' (slot w' "initXO") FTokenInitXO /\
  runs w' (slot w' "startFlow") (FTokenStartFlow m self resolve reject) /\
  runs w' (slot w' "closeFlow") (FTokenCloseFlow m self resolve reject).
Proof.
  intros Hns. cbn zeta. unfold armed.
  pose proof (namespace_armed_slot w lc "initXO" FTokenInitXO Hns
                ltac:(done)) as H1.
  pose proof (namespace_armed_slot _ lc "startFlow"
                (FTokenStartFlow m self resolve reject) H1 ltac:(done)) as H2.
  rewrite !slot_armed_slot by done. simpl.
  repeat split.
  - do 2 apply runs_armed_slot. apply runs_armed_slot_new.
  - apply runs_armed_slot. apply runs_armed_slot_new.
  - apply runs_armed_slot_new.
Qed.

(** *** Calling through the namespace *)

Lemma call_checkout_run w lc name arg f :
  namespace w = Some lc -> runs w (slot w name) f ->
  call_checkout name arg w = apply_fn f arg w.
Proof.
  intros Hns Hf. unfold call_checkout.
  rewrite (bind_ret _ _ _ _ _ (checkout_namespace_run w lc Hns)).
  rewrite (slot_namespace w lc) in Hf by done.
  unfold bind at 1. unfold get_prop.
  by rewrite (bind_ret _ _ _ _ _ Hf).
Qed.

(** *** What a parsed token is *)

Lemma parsed_truthy token t :
  parseToken token = Some t -> truthy_token (parseToken token) = true.
Proof.
  intros H. rewrite H.
  apply parseToken_canonical_result, canonical_not_empty in H.
  simpl. by rewrite H.
Qed.

Lemma unparsed_falsy token :
  parseToken token = None -> truthy_token (parseToken token) = false.
Proof. by intros ->. Qed.

(** *** The two handlers, branch by branch *)

Lemma capture_startFlow_notoken m self resolve token w lc :
  namespace w = Some lc -> parseToken token = None ->
  capture_startFlow m self resolve token w
  = (Throw (JsError (expected_token_message token)),
     pushes [Log LevelError "paymenttoken_startflow_notoken" [("token", token)]]
       (entered m lc (Log LevelDebug "paymenttoken_startflow" [("token", token)]) w)).
Proof.
  intros Hns Hp. unfold capture_startFlow, logDebug, logError.
  rewrite (unparsed_falsy token Hp). cbn [negb].
  rewrite (bind_ret _ _ _ _ _ eq_refl : bind (emit _) _ _ = _).
  erewrite (bind_ret (reset m)); [|by apply reset_run].
  reflexivity.
Qed.

Lemma capture_startFlow_ineligible m self resolve token t w lc :
  namespace w = Some lc -> parseToken token = Some t -> eligibility w = false ->
  capture_startFlow m self resolve token w
  = (Ret tt,
     pushes [IsEligible false;
             Log LevelDebug "paymenttoken_startflow_ineligible" [("token", Some t)];
             Redirect (if matchToken token
                       then Some (checkoutUrl w +:+ "?token=" +:+ show_token token)
                       else token)]
       (entered m lc (Log LevelDebug "paymenttoken_startflow" [("token", token)]) w)).
Proof.
  intros Hns Hp He. unfold capture_startFlow, logDebug, logError.
  rewrite (parsed_truthy token t Hp), Hp. cbn [negb].
  rewrite (bind_ret _ _ _ _ _ eq_refl : bind (emit _) _ _ = _).
  erewrite (bind_ret (reset m)); [|by apply reset_run].
  cbv [bind isEligible emit ret redirect getFullpageRedirectUrl].
  rewrite eligibility_restored. cbn [eligibility push with_trace].
  rewrite He. reflexivity.
Qed.

Lemma capture_startFlow_token m self resolve token t w lc :
  namespace w = Some lc -> parseToken token = Some t -> eligibility w = true ->
  matchToken token = true ->
  capture_startFlow m self resolve token w
  = (Ret tt,
     pushes [IsEligible true;
             Log LevelDebug "paymenttoken_startflow_tokenpassed" [("token", token)];
             Resolve resolve (Some t)]
       (entered m lc (Log LevelDebug "paymenttoken_startflow" [("token", token)]) w)).
Proof.
  intros Hns Hp He Hm. unfold capture_startFlow, logDebug, logError.
  rewrite (parsed_truthy token t Hp), Hp, Hm. cbn [negb].
  rewrite (bind_ret _ _ _ _ _ eq_refl : bind (emit _) _ _ = _).
  erewrite (bind_ret (reset m)); [|by apply reset_run].
  cbv [bind isEligible emit ret].
  rewrite eligibility_restored. cbn [eligibility push with_trace].
  rewrite He. reflexivity.
Qed.

Lemma capture_startFlow_url m self resolve token t w lc :
  namespace w = Some lc -> parseToken token = Some t -> eligibility w = true ->
  matchToken token = false ->
  capture_startFlow m self resolve token w
  = (Ret tt,
     pushes [IsEligible true;
             Log LevelDebug "paymenttoken_startflow_urlpassed" [("token", token)];
             UpdateProps self token;
             Resolve resolve (Some t)]
       (entered m lc (Log LevelDebug "paymenttoken_startflow" [("token", token)]) w)).
Proof.
  intros Hns Hp He Hm. unfold capture_startFlow, logDebug, logError.
  rewrite (parsed_truthy token t Hp), Hp, Hm. cbn [negb].
  rewrite (bind_ret _ _ _ _ _ eq_refl : bind (emit _) _ _ = _).
  erewrite (bind_ret (reset m)); [|by apply reset_run].
  cbv [bind isEligible emit ret].
  rewrite eligibility_restored. cbn [eligibility push with_trace].
  rewrite He. reflexivity.
Qed.

Lemma capture_closeFlow_run m self reject w lc :
  namespace w = Some lc ->
  capture_closeFlow m self reject w
  = (Ret tt,
     pushes [Reject reject "Close Flow Called"; Close self]
       (entered m lc (Log LevelWarning "paymenttoken_closeflow" []) w)).
Proof.
  intros Hns. unfold capture_closeFlow, logWarning.
  rewrite (bind_ret _ _ _ _ _ eq_refl : bind (emit _) _ _ = _).
  erewrite (bind_ret (reset m)); [|by apply reset_run].
  reflexivity.
Qed.

Lemma read_slots_entered m lc first w :
  namespace w = Some lc -> read_slots (entered m lc first w) = module_slots m.
Proof. intros Hns. by apply read_slots_restored. Qed.

Lemma trace_entered m lc first w :
  trace (entered m lc first w)
  = trace w ++ [ {| call := first; seen := read_slots w |} ].
Proof. reflexivity. Qed.

Lemma calls_entered m lc first w : calls (entered m lc first w) = calls w ++ [first].
Proof. unfold calls. rewrite trace_entered, map_app. done. Qed.

(** *** The public [startFlow], branch by branch *)

Lemma startFlow_notoken m token w :
  parseToken token = None ->
  startFlow m token w
  = (Throw (JsError (expected_token_message token)),
     pushes [Log LevelDebug "startflow" [("token", token)];
             Log LevelWarning "startflow_notoken" []] w).
Proof.
  intros Hp. unfold startFlow, logDebug, logWarning.
  rewrite (unparsed_falsy token Hp). reflexivity.
Qed.

Lemma startFlow_ineligible m token t w :
  parseToken token = Some t -> eligibility w = false ->
  startFlow m token w
  = (Ret tt,
     pushes [Log LevelDebug "startflow" [("token", token)];
             IsEligible false;
             Log LevelDebug "startflow_ineligible" [];
             Redirect (if matchToken token
                       then Some (checkoutUrl w +:+ "?token=" +:+ show_token token)
                       else token)] w).
Proof.
  intros Hp He. unfold startFlow, logDebug, logWarning.
  rewrite (parsed_truthy token t Hp). cbn [negb].
  cbv [bind isEligible emit ret redirect getFullpageRedirectUrl].
  cbn [eligibility push with_trace]. rewrite He. reflexivity.
Qed.

(** *** Traces *)

Lemma read_slots_pushes cs w : read_slots (pushes cs w) = read_slots w.
Proof.
  revert w. induction cs as [|c cs IH]; intros w; [done|].
  simpl. by rewrite IH.
Qed.

Lemma trace_pushes cs w :
  trace (pushes cs w) = trace w ++ map (at_slots (read_slots w)) cs.
Proof.
  revert w. induction cs as [|c cs IH]; intros w; simpl.
  - by rewrite app_nil_r.
  - rewrite IH, trace_push, read_slots_push. by rewrite <- app_assoc.
Qed.

(** The events of a handler: its first log line sees the slots as they
    were, every later call sees the module's own functions. *)
Lemma since_handler m lc first cs w0 w :
  namespace w = Some lc -> trace w0 = trace w ->
  since w0 (pushes cs (entered m lc first w))
  = at_slots (read_slots w) first :: map (at_slots (module_slots m)) cs.
Proof.
  intros Hns Ht. unfold since.
  rewrite trace_pushes, trace_entered, (read_slots_entered m lc first w Hns), Ht.
  rewrite <- app_assoc. by rewrite drop_app_length.
Qed.

Lemma calls_since_handler m lc first cs w0 w :
  namespace w = Some lc -> trace w0 = trace w ->
  calls_since w0 (pushes cs (entered m lc first w)) = first :: cs.
Proof.
  intros Hns Ht. unfold calls_since. rewrite (since_handler m lc) by done.
  simpl. f_equal. rewrite <- list_fmap_compose. by rewrite list_fmap_id.
Qed.

Lemma since_pushes cs w : since w (pushes cs w) = map (at_slots (read_slots w)) cs.
Proof. unfold since. by rewrite trace_pushes, drop_app_length. Qed.

Lemma calls_since_pushes cs w : calls_since w (pushes cs w) = cs.
Proof.
  unfold calls_since. rewrite since_pushes.
  rewrite <- list_fmap_compose. by rewrite list_fmap_id.
Qed.

(** *** An armed acquisition *)

Lemma after_arming_armed m self resolve reject w lc :
  namespace w = Some lc ->
  after_arming m self resolve reject w = armed m self resolve reject lc w.
Proof.
  intros Hns. unfold after_arming, run.
  by rewrite (getPaymentToken_run m self resolve reject w lc Hns).
Qed.

Lemma armed_startFlow m self resolve reject token w lc :
  namespace w = Some lc ->
  call_checkout "startFlow" token (armed m self resolve reject lc w)
  = capture_startFlow m self resolve token (armed m self resolve reject lc w).
Proof.
  intros Hns.
  destruct (armed_runs m self resolve reject w lc Hns) as (_ & H & _).
  by rewrite (call_checkout_run _ lc "startFlow" token _
                (namespace_armed m self resolve reject w lc Hns) H).
Qed.

Lemma armed_closeFlow m self resolve reject arg w lc :
  namespace w = Some lc ->
  call_checkout "closeFlow" arg (armed m self resolve reject lc w)
  = capture_closeFlow m self reject (armed m self resolve reject lc w).
Proof.
  intros Hns.
  destruct (armed_runs m self resolve reject w lc Hns) as (_ & _ & H).
  by rewrite (call_checkout_run _ lc "closeFlow" arg _
                (namespace_armed m self resolve reject w lc Hns) H).
Qed.

(** *** The installation guard *)

Lemma slot_truthy_namespace w name :
  truthy (slot w name) = true -> exists lc, namespace w = Some lc.
Proof.
  unfold slot, namespace, lookup_prop, obj_get.
  destruct (window w !! "paypal") as [[| |lp]|]; try done. simpl.
  destruct (heap w !! lp) as [op|]; [|done].
  destruct (props op !! "checkout") as [[| |lc]|]; try done. simpl.
  destruct (heap w !! lc) as [oc|]; [|done]. by exists lc.
Qed.

Lemma with_window_same w p v :
  window w !! p = Some v -> with_window (<[p := v]> (window w)) w = w.
Proof.
  intros H. destruct w. unfold with_window. simpl in *. f_equal. by apply insert_id.
Qed.

Lemma store_same w l o p v :
  heap w !! l = Some o -> props o !! p = Some v -> store l p v w = w.
Proof.
  intros Hl Hp. destruct w as [h g t e u n]. unfold store, with_heap. simpl in *.
  f_equal. rewrite Hl. simpl. apply insert_id. rewrite Hl. f_equal.
  destruct o as [ps c]. unfold obj_set. simpl in *. f_equal. symmetry. by apply insert_id.
Qed.

Lemma install_guard_run m w :
  truthy (slot w "setup") = true ->
  install m w = (Ret tt, push (ConsoleError install_error) w).
Proof.
  intros Hset.
  destruct (slot_truthy_namespace w "setup" Hset) as (lc & Hns).
  pose proof Hns as (lp & op & oc & Hw & Hp & Hc & Hl)%namespace_inv.
  assert (H1 : bind (default_object (get_window "paypal"))
                 (fun p => set_window "paypal" p) w = (Ret tt, w)).
  { unfold bind, default_object, bind, get_window, set_window. rewrite Hw. simpl.
    unfold ret. by rewrite with_window_same. }
  assert (H2 : bind (get_window "paypal")
                 (fun base => bind (default_object (get_prop base "checkout"))
                                (fun c => set_prop base "checkout" c)) w
               = (Ret tt, w)).
  { unfold bind, default_object, bind, get_window, get_prop, set_prop.
    rewrite Hw. simpl. rewrite Hp. unfold obj_get. rewrite Hc. simpl.
    unfold ret. by rewrite (store_same w lp op). }
  assert (H3 : bind checkout_namespace (fun c => get_prop c "setup") w
               = (Ret (slot w "setup"), w)).
  { rewrite (bind_ret _ _ _ _ _ (checkout_namespace_run w lc Hns)).
    by rewrite (slot_namespace w lc). }
  unfold install.
  rewrite (bind_ret _ _ _ _ _ H1), (bind_ret _ _ _ _ _ H2), (bind_ret _ _ _ _ _ H3).
  by rewrite Hset.
Qed.

Lemma match_bare_canonical s : match_bare s = canonical s.
Proof.
  destruct (canonical s) eqn:Hc.
  - by apply match_bare_iff, canonical_iff.
  - destruct (match_bare s) eqn:Hb; [|done].
    apply match_bare_iff, canonical_iff in Hb. congruence.
Qed.

End WorldFacts.

(** * The properties of the specification *)

(** Moves a goal about an armed acquisition to the function the page's
    call reaches: the world after [getPaymentToken] is [armed], and the
    slot called runs the handler made for it.  Leaves [Hns'], the
    namespace of the armed world. *)
Ltac at_armed Hns :=
  lazymatch type of Hns with
  | namespace ?w = Some ?lc =>
      cbn zeta;
      lazymatch goal with
      | |- context [after_arming ?m ?self ?resolve ?reject w] =>
          pose proof (namespace_armed m self resolve reject w lc Hns) as Hns';
          rewrite (after_arming_armed m self resolve reject w lc Hns);
          unfold outcome, run;
          rewrite ?(getPaymentToken_run m self resolve reject w lc Hns),
            ?(armed_startFlow m self resolve reject _ w lc Hns),
            ?(armed_closeFlow m self resolve reject _ w lc Hns)
      end
  end.

(** ** Token parser *)

(** C6. [parseToken] returns a canonical token verbatim.  On a string that
    holds [token=<canonical>] it returns a canonical token, the one of the
    leftmost such parameter: the token written after [token=] when the
    string holds no other one, and also when nothing before it holds
    [token=].  On a string without [token=] that is not canonical, on
    [undefined] and on the empty string it returns [undefined]. *)
Theorem parseToken_contract :
  (forall s, canonical s = true -> parseToken (Some s) = Some s) /\
  (forall pre c post, canonical c = true ->
     exists c', FirstToken (pre +:+ "token=" +:+ c +:+ post) c' /\
                canonical c' = true /\
                parseToken (Some (pre +:+ "token=" +:+ c +:+ post)) = Some c') /\
  (forall pre c post, canonical c = true ->
     (forall j c', TokenAt (pre +:+ "token=" +:+ c +:+ post) j c' -> c' = c) ->
     parseToken (Some (pre +:+ "token=" +:+ c +:+ post)) = Some c) /\
  (forall pre c post, canonical c = true -> Str.contains "token=" pre = false ->
     parseToken (Some (pre +:+ "token=" +:+ c +:+ post)) = Some c) /\
  (forall s, Str.contains "token=" s = false -> canonical s = false ->
     parseToken (Some s) = None) /\
  parseToken None = None /\
  parseToken (Some EmptyString) = None.
Proof.
  split; [|split; [|split; [|split; [|split; [|split]]]]]; try reflexivity.
  - intros s Hc%canonical_iff. by apply parseToken_canonical.
  - intros pre c post Hc%canonical_iff.
    destruct (parse_holds_token pre c post Hc) as (c' & Hfirst & Hc' & Hp).
    exists c'. by rewrite canonical_iff.
  - intros pre c post Hc%canonical_iff Honly. by apply parse_only_token.
  - intros pre c post Hc%canonical_iff Hpre. by apply parse_single_token.
  - apply parse_no_parameter.
Qed.

Lemma parseToken_contract_witness :
  (canonical "EC-ABCDE12345FGHIJ67" = true /\
   parseToken (Some "EC-ABCDE12345FGHIJ67") = Some "EC-ABCDE12345FGHIJ67") /\
  (canonical "ABCDE12345FGHIJ67" = true /\
   Str.contains "token=" "https://www.paypal.com/checkoutnow?" = false /\
   parseToken (Some "https://www.paypal.com/checkoutnow?token=ABCDE12345FGHIJ67&useraction=commit")
   = Some "ABCDE12345FGHIJ67") /\
  (Str.contains "token=" "not-a-token" = false /\
   canonical "not-a-token" = false /\
   parseToken (Some "not-a-token") = None).
Proof.
  pose proof parseToken_contract as (Hbare & _ & _ & Hurl & Hnone & _).
  split; [|split].
  - split; [reflexivity|].
    exact (Hbare "EC-ABCDE12345FGHIJ67" eq_refl).
  - split; [reflexivity|]. split; [reflexivity|].
    exact (Hurl "https://www.paypal.com/checkoutnow?" "ABCDE12345FGHIJ67"
             "&useraction=commit" eq_refl eq_refl).
  - split; [reflexivity|]. split; [reflexivity|].
    exact (Hnone "not-a-token" eq_refl eq_refl).
Defined.

(** C6 as the specification states it fails on a string that holds
    [token=<canonical>] twice: the token of the leftmost one is returned,
    also where that [token=] is the end of a longer name, and not the
    token of the later parameter, which the string holds as well. *)
Lemma parseToken_contract_counterexample :
  canonical "BBBBBBBBBBBBBBBBB" = true /\
  "https://x.test/?mytoken=AAAAAAAAAAAAAAAAA&token=BBBBBBBBBBBBBBBBB"
  = "https://x.test/?mytoken=AAAAAAAAAAAAAAAAA&" +:+ "token=" +:+ "BBBBBBBBBBBBBBBBB"
    +:+ EmptyString /\
  parseToken (Some "https://x.test/?mytoken=AAAAAAAAAAAAAAAAA&token=BBBBBBBBBBBBBBBBB")
  = Some "AAAAAAAAAAAAAAAAA" /\
  parseToken (Some "https://x.test/?mytoken=AAAAAAAAAAAAAAAAA&token=BBBBBBBBBBBBBBBBB")
  <> Some "BBBBBBBBBBBBBBBBB".
Proof. repeat split; try reflexivity. discriminate. Qed.

(** C10. When [token=] (with or without [EC-] behind it) is followed by a run
    of more than seventeen characters of [[A-Z0-9]], the parameter's value
    is not a canonical token, yet [parseToken] returns a canonical token
    and not [undefined]: the pattern is not anchored on the right.  Where
    this is the first [token=<canonical>] of the string, and so where
    nothing before it holds [token=], the token returned is the first
    seventeen characters of the run, behind the prefix if there is one. *)
Theorem parseToken_long_run pre ec run post :
  ec = EmptyString \/ ec = "EC-" ->
  Str.all isUpperAlnum run = true ->
  17 < String.length run ->
  canonical (ec +:+ run) = false /\
  (exists t, parseToken (Some (pre +:+ "token=" +:+ ec +:+ run +:+ post)) = Some t /\
             canonical t = true /\
             FirstToken (pre +:+ "token=" +:+ ec +:+ run +:+ post) t) /\
  ((forall j c, TokenAt (pre +:+ "token=" +:+ ec +:+ run +:+ post) j c ->
                String.length pre <= j) ->
   parseToken (Some (pre +:+ "token=" +:+ ec +:+ run +:+ post))
   = Some (ec +:+ Str.take 17 run)) /\
  (Str.contains "token=" pre = false ->
   parseToken (Some (pre +:+ "token=" +:+ ec +:+ run +:+ post))
   = Some (ec +:+ Str.take 17 run)).
Proof.
  intros Hec Hall Hlen.
  pose proof (long_run_head ec run Hec Hall Hlen) as Hc.
  split; [by apply long_run_not_canonical|]. split; [|split].
  - rewrite long_run_split.
    destruct (parse_holds_token pre _ (Str.drop 17 run +:+ post) Hc)
      as (t & Hfirst & Ht & Hp).
    exists t. by rewrite canonical_iff.
  - intros Hmin. apply parse_first_token.
    exists (String.length pre). split; [|done].
    exists pre, (Str.drop 17 run +:+ post). by rewrite <- long_run_split.
  - intros Hpre. rewrite long_run_split. by apply parse_single_token.
Qed.

Lemma parseToken_long_run_witness :
  (EmptyString = EmptyString \/ EmptyString = "EC-") /\
  Str.all isUpperAlnum "ABCDE12345FGHIJ67890" = true /\
  17 < String.length "ABCDE12345FGHIJ67890" /\
  Str.contains "token=" "https://x.test/?" = false /\
  parseToken (Some "https://x.test/?token=ABCDE12345FGHIJ67890&a=b")
  = Some "ABCDE12345FGHIJ67".
Proof.
  assert (H17 : 17 < String.length "ABCDE12345FGHIJ67890") by (simpl; lia).
  split; [by left|]. split; [reflexivity|]. split; [exact H17|].
  split; [reflexivity|].
  exact (proj2 (proj2 (proj2 (parseToken_long_run "https://x.test/?" EmptyString
                                "ABCDE12345FGHIJ67890" "&a=b" (or_introl eq_refl)
                                eq_refl H17)))
           eq_refl).
Defined.

(** C10 as the specification states it fails on a string that holds an
    earlier [token=<canonical>]: [token=] is followed by a run of twenty
    characters of the class, and the token returned is the one of the
    earlier parameter, not the first seventeen characters of the run. *)
Lemma parseToken_long_run_counterexample :
  Str.all isUpperAlnum "BBBBBBBBBBBBBBBBBBBB" = true /\
  17 < String.length "BBBBBBBBBBBBBBBBBBBB" /\
  "x?mytoken=AAAAAAAAAAAAAAAAA&token=BBBBBBBBBBBBBBBBBBBB"
  = "x?mytoken=AAAAAAAAAAAAAAAAA&" +:+ "token=" +:+ EmptyString
    +:+ "BBBBBBBBBBBBBBBBBBBB" +:+ EmptyString /\
  parseToken (Some "x?mytoken=AAAAAAAAAAAAAAAAA&token=BBBBBBBBBBBBBBBBBBBB")
  = Some "AAAAAAAAAAAAAAAAA" /\
  parseToken (Some "x?mytoken=AAAAAAAAAAAAAAAAA&token=BBBBBBBBBBBBBBBBBBBB")
  <> Some (EmptyString +:+ Str.take 17 "BBBBBBBBBBBBBBBBBBBB").
Proof. repeat split; try reflexivity; try (simpl; lia). discriminate. Qed.

(** ** The bridge: arming, resolving, closing *)

(** C1. In an eligible context, invoking the armed [startFlow] slot with an
    input that parses to a token resolves the acquisition with exactly
    that token, once, and rejects nothing; afterwards the three slots hold
    the module's own [initXO], [startFlow] and [closeFlow], which are the
    values from before arming whenever the slots held these then. *)
Theorem arm_resolve_cycle m self resolve reject token t w lc :
  namespace w = Some lc ->
  eligibility w = true ->
  parseToken token = Some t ->
  let w1 := after_arming m self resolve reject w in
  let w2 := run (call_checkout "startFlow" token) w1 in
  outcome (getPaymentToken m self resolve reject) w = Ret tt /\
  outcome (call_checkout "startFlow" token) w1 = Ret tt /\
  List.filter is_settle (calls_since w1 w2) = [Resolve resolve (Some t)] /\
  read_slots w2 = module_slots m /\
  (read_slots w = module_slots m -> read_slots w2 = read_slots w).
Proof.
  intros Hns He Hp. at_armed Hns.
  destruct (matchToken token) eqn:Hm.
  - rewrite (capture_startFlow_token m self resolve token t _ lc Hns' Hp He Hm).
    cbn [fst snd].
    rewrite (calls_since_handler m lc) by done.
    rewrite read_slots_pushes, (read_slots_entered m lc) by done.
    repeat split; done.
  - rewrite (capture_startFlow_url m self resolve token t _ lc Hns' Hp He Hm).
    cbn [fst snd].
    rewrite (calls_since_handler m lc) by done.
    rewrite read_slots_pushes, (read_slots_entered m lc) by done.
    repeat split; done.
Qed.

Lemma arm_resolve_cycle_witness :
  namespace (loaded_page true) = Some 5 /\
  eligibility (loaded_page true) = true /\
  parseToken (Some "ABCDE12345FGHIJ67") = Some "ABCDE12345FGHIJ67" /\
  List.filter is_settle
    (calls_since (after_arming loaded_module 7 8 9 (loaded_page true))
       (run (call_checkout "startFlow" (Some "ABCDE12345FGHIJ67"))
          (after_arming loaded_module 7 8 9 (loaded_page true))))
  = [Resolve 8 (Some "ABCDE12345FGHIJ67")] /\
  read_slots
    (run (call_checkout "startFlow" (Some "ABCDE12345FGHIJ67"))
       (after_arming loaded_module 7 8 9 (loaded_page true)))
  = read_slots (loaded_page true).
Proof.
  assert (Hns : namespace (loaded_page true) = Some 5) by (vm_compute; reflexivity).
  assert (Hsl : read_slots (loaded_page true) = module_slots loaded_module)
    by (vm_compute; reflexivity).
  pose proof (arm_resolve_cycle loaded_module 7 8 9 (Some "ABCDE12345FGHIJ67")
                "ABCDE12345FGHIJ67" (loaded_page true) 5 Hns eq_refl eq_refl)
    as (_ & _ & Hres & _ & Hback).
  split; [exact Hns|]. split; [reflexivity|]. split; [reflexivity|].
  split; [exact Hres|exact (Hback Hsl)].
Defined.

(** C1 as the specification states it fails twice: in an ineligible context the
    armed [startFlow] slot redirects and resolves nothing; and when the
    slots held something else than the module's functions before arming
    (here: the functions of an earlier, unsettled acquisition), they do
    not hold it again afterwards. *)
Lemma arm_resolve_counterexample :
  (namespace (loaded_page false) = Some 5 /\
   parseToken (Some "ABCDE12345FGHIJ67") = Some "ABCDE12345FGHIJ67" /\
   calls_since (after_arming loaded_module 7 8 9 (loaded_page false))
     (run (call_checkout "startFlow" (Some "ABCDE12345FGHIJ67"))
        (after_arming loaded_module 7 8 9 (loaded_page false)))
   = [Log LevelDebug "paymenttoken_startflow" [("token", Some "ABCDE12345FGHIJ67")];
      IsEligible false;
      Log LevelDebug "paymenttoken_startflow_ineligible" [("token", Some "ABCDE12345FGHIJ67")];
      Redirect (Some "https://www.paypal.com/checkoutnow?token=ABCDE12345FGHIJ67")]) /\
  (let w := after_arming loaded_module 1 10 11 (loaded_page true) in
   let w1 := after_arming loaded_module 2 20 21 w in
   let w2 := run (call_checkout "startFlow" (Some "ABCDE12345FGHIJ67")) w1 in
   namespace w = Some 5 /\
   eligibility w = true /\
   read_slots w = {| s_initXO := VRef 10; s_startFlow := VRef 11; s_closeFlow := VRef 12 |} /\
   List.filter is_settle (calls_since w1 w2) = [Resolve 20 (Some "ABCDE12345FGHIJ67")] /\
   read_slots w2 = {| s_initXO := VRef 1; s_startFlow := VRef 2; s_closeFlow := VRef 3 |} /\
   read_slots w2 <> read_slots w).
Proof.
  split.
  - repeat split; vm_compute; reflexivity.
  - cbn zeta. repeat split; try (vm_compute; reflexivity).
    vm_compute. discriminate.
Qed.

(** C2. When the armed [startFlow] slot is invoked with an input from which
    no token can be parsed, the slots are restored, the error is logged
    and an [Error] is thrown to the invoker; neither callback of the
    acquisition is called. *)
Theorem arm_notoken_throws m self resolve reject token w lc :
  namespace w = Some lc ->
  parseToken token = None ->
  let w1 := after_arming m self resolve reject w in
  let w2 := run (call_checkout "startFlow" token) w1 in
  outcome (call_checkout "startFlow" token) w1
  = Throw (JsError (expected_token_message token)) /\
  calls_since w1 w2
  = [Log LevelDebug "paymenttoken_startflow" [("token", token)];
     Log LevelError "paymenttoken_startflow_notoken" [("token", token)]] /\
  List.filter is_settle (calls_since w1 w2) = [] /\
  read_slots w2 = module_slots m.
Proof.
  intros Hns Hp. at_armed Hns.
  rewrite (capture_startFlow_notoken m self resolve token _ lc Hns' Hp).
  cbn [fst snd].
  rewrite (calls_since_handler m lc) by done.
  rewrite read_slots_pushes, (read_slots_entered m lc) by done.
  done.
Qed.

Lemma arm_notoken_throws_witness :
  namespace (loaded_page true) = Some 5 /\
  parseToken (Some "not-a-token") = None /\
  outcome (call_checkout "startFlow" (Some "not-a-token"))
    (after_arming loaded_module 7 8 9 (loaded_page true))
  = Throw (JsError (expected_token_message (Some "not-a-token"))).
Proof.
  assert (Hns : namespace (loaded_page true) = Some 5) by (vm_compute; reflexivity).
  split; [exact Hns|]. split; [reflexivity|].
  exact (proj1 (arm_notoken_throws loaded_module 7 8 9 (Some "not-a-token")
                  (loaded_page true) 5 Hns eq_refl)).
Defined.

(** C2 as the specification states it fails: the [reject] callback of the acquisition
    (here number 9) is not called, the acquisition is left unsettled. *)
Lemma arm_notoken_counterexample :
  namespace (loaded_page true) = Some 5 /\
  parseToken (Some "not-a-token") = None /\
  outcome (call_checkout "startFlow" (Some "not-a-token"))
    (after_arming loaded_module 7 8 9 (loaded_page true))
  = Throw (JsError (expected_token_message (Some "not-a-token"))) /\
  calls_since (after_arming loaded_module 7 8 9 (loaded_page true))
    (run (call_checkout "startFlow" (Some "not-a-token"))
       (after_arming loaded_module 7 8 9 (loaded_page true)))
  = [Log LevelDebug "paymenttoken_startflow" [("token", Some "not-a-token")];
     Log LevelError "paymenttoken_startflow_notoken" [("token", Some "not-a-token")]].
Proof. repeat split; vm_compute; reflexivity. Qed.



(** C5. Invoking the armed [closeFlow] slot returns normally, restores the
    three slots to the module's own functions (the values from before
    arming whenever the slots held these then), rejects the
    acquisition with the error "Close Flow Called" passed to its [reject]
    callback, and then asks the component to close. *)
Theorem arm_close_cycle m self resolve reject w lc :
  namespace w = Some lc ->
  let w1 := after_arming m self resolve reject w in
  let w2 := run (call_checkout "closeFlow" None) w1 in
  outcome (call_checkout "closeFlow" None) w1 = Ret tt /\
  calls_since w1 w2
  = [Log LevelWarning "paymenttoken_closeflow" [];
     Reject reject "Close Flow Called";
     Close self] /\
  read_slots w2 = module_slots m /\
  (read_slots w = module_slots m -> read_slots w2 = read_slots w).
Proof.
  intros Hns. at_armed Hns.
  rewrite (capture_closeFlow_run m self reject _ lc Hns'). cbn [fst snd].
  rewrite (calls_since_handler m lc) by done.
  rewrite read_slots_pushes, (read_slots_entered m lc) by done.
  repeat split; done.
Qed.

Lemma arm_close_cycle_witness :
  namespace (loaded_page true) = Some 5 /\
  calls_since (after_arming loaded_module 7 8 9 (loaded_page true))
    (run (call_checkout "closeFlow" None)
       (after_arming loaded_module 7 8 9 (loaded_page true)))
  = [Log LevelWarning "paymenttoken_closeflow" [];
     Reject 9 "Close Flow Called";
     Close 7] /\
  read_slots (run (call_checkout "closeFlow" None)
                (after_arming loaded_module 7 8 9 (loaded_page true)))
  = read_slots (loaded_page true).
Proof.
  assert (Hns : namespace (loaded_page true) = Some 5) by (vm_compute; reflexivity).
  assert (Hsl : read_slots (loaded_page true) = module_slots loaded_module)
    by (vm_compute; reflexivity).
  pose proof (arm_close_cycle loaded_module 7 8 9 (loaded_page true) 5 Hns)
    as (_ & Hcalls & _ & Hback).
  split; [exact Hns|]. split; [exact Hcalls|exact (Hback Hsl)].
Defined.

(** C5 as the specification states it fails where the slots held something
    else than the module's functions before arming.  Here an earlier
    acquisition is pending when a second one is armed: the [closeFlow]
    slot of the second rejects it and asks its component to close, and
    the slots end with the module's functions, not with the functions of
    the first acquisition that were there before the second arming. *)
Lemma arm_close_counterexample :
  let w := after_arming loaded_module 1 10 11 (loaded_page true) in
  let w1 := after_arming loaded_module 2 20 21 w in
  let w2 := run (call_checkout "closeFlow" None) w1 in
  namespace w = Some 5 /\
  read_slots w = {| s_initXO := VRef 10; s_startFlow := VRef 11; s_closeFlow := VRef 12 |} /\
  outcome (call_checkout "closeFlow" None) w1 = Ret tt /\
  calls_since w1 w2
  = [Log LevelWarning "paymenttoken_closeflow" [];
     Reject 21 "Close Flow Called";
     Close 2] /\
  read_slots w2 = {| s_initXO := VRef 1; s_startFlow := VRef 2; s_closeFlow := VRef 3 |} /\
  read_slots w2 <> read_slots w.
Proof.
  cbn zeta. repeat split; try (vm_compute; reflexivity).
  vm_compute. discriminate.
Qed.

(** C8. In an eligible context, when the input of the armed [startFlow] slot
    parses to a token without being a bare canonical token itself, the
    component's [url] prop is set to the input and then the acquisition is
    resolved with the token; when the input is a bare token, the
    acquisition is resolved and no prop is set. *)
Theorem arm_url_updates_props m self resolve reject s t w lc :
  namespace w = Some lc ->
  eligibility w = true ->
  parseToken (Some s) = Some t ->
  let w1 := after_arming m self resolve reject w in
  let w2 := run (call_checkout "startFlow" (Some s)) w1 in
  (canonical s = false ->
   calls_since w1 w2
   = [Log LevelDebug "paymenttoken_startflow" [("token", Some s)];
      IsEligible true;
      Log LevelDebug "paymenttoken_startflow_urlpassed" [("token", Some s)];
      UpdateProps self (Some s);
      Resolve resolve (Some t)]) /\
  (canonical s = true ->
   calls_since w1 w2
   = [Log LevelDebug "paymenttoken_startflow" [("token", Some s)];
      IsEligible true;
      Log LevelDebug "paymenttoken_startflow_tokenpassed" [("token", Some s)];
      Resolve resolve (Some s)]).
Proof.
  intros Hns He Hp. at_armed Hns.
  split; intros Hc.
  - assert (Hm : matchToken (Some s) = false) by (simpl; by rewrite match_bare_canonical).
    rewrite (capture_startFlow_url m self resolve (Some s) t _ lc Hns' Hp He Hm).
    cbn [snd]. by rewrite (calls_since_handler m lc).
  - assert (Hm : matchToken (Some s) = true) by (simpl; by rewrite match_bare_canonical).
    assert (t = s) as ->.
    { apply canonical_iff, parseToken_canonical in Hc. congruence. }
    rewrite (capture_startFlow_token m self resolve (Some s) s _ lc Hns' Hp He Hm).
    cbn [snd]. by rewrite (calls_since_handler m lc).
Qed.

Lemma arm_url_updates_props_witness :
  namespace (loaded_page true) = Some 5 /\
  eligibility (loaded_page true) = true /\
  parseToken (Some "https://www.paypal.com/checkoutnow?token=EC-ABCDE12345FGHIJ67")
  = Some "EC-ABCDE12345FGHIJ67" /\
  canonical "https://www.paypal.com/checkoutnow?token=EC-ABCDE12345FGHIJ67" = false /\
  calls_since (after_arming loaded_module 7 8 9 (loaded_page true))
    (run (call_checkout "startFlow"
            (Some "https://www.paypal.com/checkoutnow?token=EC-ABCDE12345FGHIJ67"))
       (after_arming loaded_module 7 8 9 (loaded_page true)))
  = [Log LevelDebug "paymenttoken_startflow"
       [("token", Some "https://www.paypal.com/checkoutnow?token=EC-ABCDE12345FGHIJ67")];
     IsEligible true;
     Log LevelDebug "paymenttoken_startflow_urlpassed"
       [("token", Some "https://www.paypal.com/checkoutnow?token=EC-ABCDE12345FGHIJ67")];
     UpdateProps 7 (Some "https://www.paypal.com/checkoutnow?token=EC-ABCDE12345FGHIJ67");
     Resolve 8 (Some "EC-ABCDE12345FGHIJ67")].
Proof.
  assert (Hns : namespace (loaded_page true) = Some 5) by (vm_compute; reflexivity).
  split; [exact Hns|]. split; [reflexivity|]. split; [reflexivity|].
  split; [reflexivity|].
  exact (proj1 (arm_url_updates_props loaded_module 7 8 9
                  "https://www.paypal.com/checkoutnow?token=EC-ABCDE12345FGHIJ67"
                  "EC-ABCDE12345FGHIJ67" (loaded_page true) 5 Hns eq_refl eq_refl)
           eq_refl).
Defined.

(** ** The public entry points *)

(** C4. In an ineligible context, [startFlow] with an input that parses to a
    token redirects the page, to [<checkoutUrl>?token=<input>] when the
    input is a bare canonical token and to the input itself otherwise; it
    makes and renders no component, settles no acquisition and leaves the
    page's objects as they were.  The function an armed acquisition puts
    in the [startFlow] slot redirects to the same address, and neither
    resolves nor rejects the acquisition. *)
Theorem startFlow_ineligible_redirects m0 s t w :
  parseToken (Some s) = Some t ->
  eligibility w = false ->
  let w' := run (startFlow m0 (Some s)) w in
  let url := if canonical s then checkoutUrl w +:+ "?token=" +:+ s else s in
  outcome (startFlow m0 (Some s)) w = Ret tt /\
  calls_since w w'
  = [Log LevelDebug "startflow" [("token", Some s)];
     IsEligible false;
     Log LevelDebug "startflow_ineligible" [];
     Redirect (Some url)] /\
  List.filter is_navigation (calls_since w w') = [Redirect (Some url)] /\
  List.filter is_settle (calls_since w w') = [] /\
  heap w' = heap w /\ window w' = window w /\
  (forall m self resolve reject lc,
     namespace w = Some lc ->
     let w1 := after_arming m self resolve reject w in
     let w2 := run (call_checkout "startFlow" (Some s)) w1 in
     outcome (call_checkout "startFlow" (Some s)) w1 = Ret tt /\
     List.filter is_navigation (calls_since w1 w2) = [Redirect (Some url)] /\
     List.filter is_settle (calls_since w1 w2) = []).
Proof.
  intros Hp He. cbn zeta. unfold outcome, run.
  rewrite (startFlow_ineligible m0 (Some s) t w Hp He). cbn [fst snd].
  rewrite calls_since_pushes.
  split; [done|]. split; [|split; [|split; [|split; [|split]]]]; try done.
  - cbn [matchToken show_token]. rewrite match_bare_canonical.
    by destruct (canonical s).
  - cbn [matchToken show_token]. rewrite match_bare_canonical.
    by destruct (canonical s).
  - intros m self resolve reject lc Hns. at_armed Hns.
    rewrite (capture_startFlow_ineligible m self resolve (Some s) t _ lc Hns' Hp He).
    cbn [fst snd]. rewrite (calls_since_handler m lc) by done.
    cbn [matchToken show_token]. rewrite match_bare_canonical.
    by destruct (canonical s).
Qed.

Lemma startFlow_ineligible_redirects_witness :
  parseToken (Some "ABCDE12345FGHIJ67") = Some "ABCDE12345FGHIJ67" /\
  eligibility (loaded_page false) = false /\
  List.filter is_navigation
    (calls_since (loaded_page false)
       (run (startFlow loaded_module (Some "ABCDE12345FGHIJ67")) (loaded_page false)))
  = [Redirect (Some "https://www.paypal.com/checkoutnow?token=ABCDE12345FGHIJ67")].
Proof.
  split; [reflexivity|]. split; [reflexivity|].
  exact (proj1 (proj2 (proj2 (startFlow_ineligible_redirects loaded_module
                                "ABCDE12345FGHIJ67"
                                "ABCDE12345FGHIJ67" (loaded_page false)
                                eq_refl eq_refl)))).
Defined.

(** C7. [startFlow] with an input from which no token can be parsed throws
    an [Error] to its caller; before that it only writes two log lines:
    no redirect, no component made or rendered, the page's objects as
    they were. *)
Theorem startFlow_notoken_throws m token w :
  parseToken token = None ->
  let w' := run (startFlow m token) w in
  outcome (startFlow m token) w = Throw (JsError (expected_token_message token)) /\
  calls_since w w'
  = [Log LevelDebug "startflow" [("token", token)]; Log LevelWarning "startflow_notoken" []] /\
  List.filter is_navigation (calls_since w w') = [] /\
  heap w' = heap w /\ window w' = window w.
Proof.
  intros Hp. cbn zeta. unfold outcome, run.
  rewrite (startFlow_notoken m token w Hp). cbn [fst snd].
  rewrite calls_since_pushes. repeat split; done.
Qed.

Lemma startFlow_notoken_throws_witness :
  parseToken (Some "not-a-token") = None /\
  outcome (startFlow loaded_module (Some "not-a-token")) (loaded_page true)
  = Throw (JsError (expected_token_message (Some "not-a-token"))) /\
  List.filter is_navigation
    (calls_since (loaded_page true)
       (run (startFlow loaded_module (Some "not-a-token")) (loaded_page true)))
  = [].
Proof.
  pose proof (startFlow_notoken_throws loaded_module (Some "not-a-token")
                (loaded_page true) eq_refl)
    as (Hthrow & _ & Hnav & _).
  split; [reflexivity|]. split; [exact Hthrow|exact Hnav].
Defined.

(** ** Installation *)

(** C9. When [window.paypal.checkout.setup] is already there, the
    installation statements log an error on the console and change
    nothing: the heap and the global object are the same afterwards, so
    [setup], [initXO], [startFlow], [closeFlow], [events] and every other
    entry of the namespace are the very values they were. *)
Theorem install_is_guarded m w :
  truthy (slot w "setup") = true ->
  let w' := run (install m) w in
  outcome (install m) w = Ret tt /\
  calls_since w w' = [ConsoleError install_error] /\
  heap w' = heap w /\
  window w' = window w /\
  forall name, slot w' name = slot w name.
Proof.
  intros Hset. cbn zeta. unfold outcome, run.
  rewrite (install_guard_run m w Hset). cbn [fst snd].
  pose proof (calls_since_pushes [ConsoleError install_error] w) as Hcalls.
  cbn [pushes fold_left] in Hcalls. rewrite Hcalls.
  repeat split; done.
Qed.

Lemma install_is_guarded_witness :
  truthy (slot (loaded_page true) "setup") = true /\
  calls_since (loaded_page true)
    (run (install {| m_setup := 20; m_initXO := 21; m_startFlow := 22; m_closeFlow := 23 |})
       (loaded_page true))
  = [ConsoleError install_error] /\
  heap (run (install {| m_setup := 20; m_initXO := 21; m_startFlow := 22; m_closeFlow := 23 |})
          (loaded_page true))
  = heap (loaded_page true).
Proof.
  assert (Hset : truthy (slot (loaded_page true) "setup") = true)
    by (vm_compute; reflexivity).
  pose proof (install_is_guarded
                {| m_setup := 20; m_initXO := 21; m_startFlow := 22; m_closeFlow := 23 |}
                (loaded_page true) Hset) as (_ & Hcalls & Hheap & _).
  split; [exact Hset|]. split; [exact Hcalls|exact Hheap].
Defined.

(** * Further properties of the code *)

(** ** [parseToken] *)

Section ParserMore.

Lemma canonical_length t : Canonical t -> String.length t = 17 \/ String.length t = 20.
Proof.
  intros (b & [Hlen _] & [->| ->]); [by left|right].
  rewrite str_length_app. simpl. lia.
Qed.

Lemma TokenAt_holds s i c : TokenAt s i c -> Str.Occurs c s.
Proof.
  intros (pre & post & -> & _ & _). exists (pre +:+ "token="), post.
  by rewrite str_app_assoc.
Qed.

Lemma parseToken_inv s t :
  parseToken (Some s) = Some t ->
  (t = s /\ Canonical s) \/ (~ Canonical s /\ FirstToken s t).
Proof.
  unfold parseToken. destruct (Str.is_empty s); [done|].
  destruct (match_bare s) eqn:Hb.
  - intros [= <-]. left. split; [done|]. by apply match_bare_iff.
  - intros Hm%match_url_first. right. split; [|done].
    intros Hc%match_bare_iff. congruence.
Qed.

(** The literal [token=] does not start in [x] followed by a question
    mark where it does not start in [x]. *)
Lemma literal_question x :
  Str.literal "token=" x = None ->
  Str.literal "token=" (x +:+ "?") = None.
Proof.
  destruct x as [|a1 [|a2 [|a3 [|a4 [|a5 [|a6 x]]]]]];
    rewrite ?str_app_cons; cbn [Str.literal String.append]; intros H;
    repeat match goal with
      | |- context [Ascii.eqb ?u ?v] =>
          let E := fresh "E" in
          destruct (Ascii.eqb u v) eqn:E; try (vm_compute in E; discriminate E)
      end;
    try done.
  all: repeat match goal with
      | E : Ascii.eqb _ _ = true |- _ => rewrite E in H
      end; done.
Qed.

Lemma contains_question base :
  Str.contains "token=" base = false ->
  Str.contains "token=" (base +:+ "?") = false.
Proof.
  induction base as [|a base IH]; [done|].
  cbn [Str.contains]. destruct (Str.literal "token=" (String a base)) eqn:Hlit; [done|].
  intros Hbase. rewrite str_app_cons. cbn [Str.contains].
  rewrite <- str_app_cons, (literal_question _ Hlit).
  by apply IH.
Qed.

End ParserMore.

(** X1. What [parseToken] returns is a canonical token, of 17 or 20
    characters, and it is a part of the input: no token is made up. *)
Theorem parseToken_returns_canonical token t :
  parseToken token = Some t ->
  canonical t = true /\
  (String.length t = 17 \/ String.length t = 20) /\
  exists s, token = Some s /\ Str.Occurs t s.
Proof.
  intros Hp. pose proof (parseToken_canonical_result token t Hp) as Hc.
  split; [by apply canonical_iff|]. split; [by apply canonical_length|].
  destruct token as [s|]; [|done]. exists s. split; [done|].
  destruct (parseToken_inv s t Hp) as [[-> _]|[_ (i & Hat & _)]].
  - by exists EmptyString, EmptyString; rewrite str_app_nil_r.
  - by apply (TokenAt_holds s i).
Qed.

Lemma parseToken_returns_canonical_witness :
  parseToken (Some "x?token=EC-ABCDE12345FGHIJ67&y") = Some "EC-ABCDE12345FGHIJ67" /\
  canonical "EC-ABCDE12345FGHIJ67" = true.
Proof.
  split; [reflexivity|].
  exact (proj1 (parseToken_returns_canonical (Some "x?token=EC-ABCDE12345FGHIJ67&y")
                  "EC-ABCDE12345FGHIJ67" eq_refl)).
Defined.

(** X2. Parsing is idempotent: what [parseToken] returns parses to itself,
    and [undefined] stays [undefined]. *)
Theorem parseToken_idempotent token :
  parseToken (parseToken token) = parseToken token.
Proof.
  destruct (parseToken token) as [t|] eqn:Hp; [|done].
  by apply parseToken_canonical, (parseToken_canonical_result token).
Qed.

(** X3. [parseToken] returns a token exactly when the string is a canonical
    token or holds [token=] followed by one; every other string, among
    them one whose [token=] is followed by lower case or by fewer than
    seventeen characters of the class, gives [undefined]. *)
Theorem parseToken_defined_iff s :
  is_Some (parseToken (Some s)) <->
  canonical s = true \/ exists i c, TokenAt s i c.
Proof.
  split.
  - intros [t Hp]. destruct (parseToken_inv s t Hp) as [[_ Hc]|[_ (i & Hat & _)]].
    + left. by apply canonical_iff.
    + right. by exists i, t.
  - intros [Hc%canonical_iff|(i & c & Hat)].
    + exists s. by apply parseToken_canonical.
    + rewrite (parseToken_url s (TokenAt_occurs s i c Hat)).
      destruct (match_url s) as [t|] eqn:Hm; [by exists t|].
      by apply (proj1 (match_url_none s) Hm i c) in Hat.
Qed.

(** X4. The address of the full-page redirect carries the token of the
    input: when [config.checkoutUrl] holds no [token=], parsing what
    [getFullpageRedirectUrl] returns gives what parsing the input gave.
    ([matchToken] is the full match of the canonical pattern.) *)
Theorem redirect_url_keeps_token s t w :
  parseToken (Some s) = Some t ->
  Str.contains "token=" (checkoutUrl w) = false ->
  exists url,
    getFullpageRedirectUrl (Some s) w = (Ret (Some url), w) /\
    parseToken (Some url) = Some t.
Proof.
  intros Hp Hbase. unfold getFullpageRedirectUrl. cbn [matchToken show_token].
  destruct (match_bare s) eqn:Hb.
  - eexists. split; [reflexivity|].
    apply match_bare_iff in Hb.
    assert (t = s) as -> by (rewrite (parseToken_canonical s Hb) in Hp; congruence).
    pose proof (parse_single_token (checkoutUrl w +:+ "?") s EmptyString Hb
                  (contains_question _ Hbase)) as Hurl.
    by rewrite str_app_nil_r, str_app_assoc in Hurl.
  - by exists s.
Qed.

Lemma redirect_url_keeps_token_witness :
  parseToken (Some "EC-ABCDE12345FGHIJ67") = Some "EC-ABCDE12345FGHIJ67" /\
  Str.contains "token=" (checkoutUrl (loaded_page false)) = false /\
  exists url,
    getFullpageRedirectUrl (Some "EC-ABCDE12345FGHIJ67") (loaded_page false)
    = (Ret (Some url), loaded_page false) /\
    parseToken (Some url) = Some "EC-ABCDE12345FGHIJ67".
Proof.
  split; [reflexivity|]. split; [reflexivity|].
  exact (redirect_url_keeps_token "EC-ABCDE12345FGHIJ67" "EC-ABCDE12345FGHIJ67"
           (loaded_page false) eq_refl eq_refl).
Defined.

(** ** The public entry points, all branches *)

Section EntryPoints.

Lemma calls_since_with_handles n cs w :
  calls_since w (with_handles n (pushes cs w)) = cs.
Proof. apply (calls_since_pushes cs w). Qed.

Lemma startFlow_eligible m token t w :
  parseToken token = Some t -> eligibility w = true ->
  startFlow m token w
  = (Ret tt,
     with_handles (S (handles w))
       (pushes [Log LevelDebug "startflow" [("token", token)];
                IsEligible true;
                Log LevelInfo "init_checkout" [];
                SetAutocloseParentTemplate false;
                Init {| p_uid := default VUndef (window w !! "pp_uid");
                        p_paymentToken := TokenValue (Some t);
                        p_url := if matchToken token then UrlNull else UrlValue token |}
                  (handles w);
                Render (handles w)] w)).
Proof.
  intros Hp He. unfold startFlow, logDebug, logWarning.
  rewrite (parsed_truthy token t Hp), Hp. cbn [negb].
  cbv [bind isEligible emit ret initPayPalCheckout logInfo get_window
       PayPalCheckout_init render].
  cbn [eligibility push with_trace]. rewrite He. reflexivity.
Qed.

Lemma handles_pushes cs w : handles (pushes cs w) = handles w.
Proof.
  revert w. induction cs as [|c cs IH]; intros w; [done|].
  change (handles (pushes cs (push c w)) = handles w). by rewrite IH.
Qed.

Lemma heap_pushes cs w : heap (pushes cs w) = heap w.
Proof.
  revert w. induction cs as [|c cs IH]; intros w; [done|].
  change (heap (pushes cs (push c w)) = heap w). by rewrite IH.
Qed.

Lemma window_pushes cs w : window (pushes cs w) = window w.
Proof.
  revert w. induction cs as [|c cs IH]; intros w; [done|].
  change (window (pushes cs (push c w)) = window w). by rewrite IH.
Qed.

Lemma namespace_pushes cs w : namespace (pushes cs w) = namespace w.
Proof. unfold namespace. by rewrite heap_pushes, window_pushes. Qed.

Lemma with_handles_same w : with_handles (handles w) w = w.
Proof. by destruct w. Qed.

Lemma pushes_with_handles cs w : pushes cs w = with_handles (handles w) (pushes cs w).
Proof. by rewrite <- (handles_pushes cs w), with_handles_same. Qed.

Lemma calls_since_extends w w' evs :
  trace w' = trace w ++ evs -> calls_since w w' = map call evs.
Proof. intros Ht. unfold calls_since, since. by rewrite Ht, drop_app_length. Qed.

Lemma map_call_at_slots sl cs : map call (map (at_slots sl) cs) = cs.
Proof. rewrite <- list_fmap_compose. apply list_fmap_id. Qed.

Lemma trace_with_handles n cs w :
  trace (with_handles n (pushes cs w)) = trace w ++ map (at_slots (read_slots w)) cs.
Proof. apply (trace_pushes cs w). Qed.

(** [initPayPalCheckout] without a [paymentToken] of the caller's: the
    component is made with [getPaymentToken] as the provider of its
    token, and the provider runs at once. *)
Lemma initPayPalCheckout_provider m url w lc :
  namespace w = Some lc ->
  initPayPalCheckout m {| props_url := url; props_paymentToken := None |} w
  = (Ret (handles w),
     armed m (handles w) (handles w) (handles w) lc
       (with_handles (S (handles w))
          (pushes [Log LevelInfo "init_checkout" [];
                   SetAutocloseParentTemplate false;
                   Init {| p_uid := default VUndef (window w !! "pp_uid");
                           p_paymentToken := TokenProvider;
                           p_url := url |} (handles w)] w))).
Proof.
  intros Hns. unfold initPayPalCheckout, logInfo.
  cbv [bind emit ret get_window PayPalCheckout_init].
  cbn [p_paymentToken props_paymentToken default].
  erewrite getPaymentToken_run; [reflexivity|exact Hns].
Qed.

Lemma initXO_ineligible m w :
  eligibility w = false ->
  initXO m w = (Ret tt, pushes [Log LevelDebug "initxo" []; IsEligible false] w).
Proof.
  intros He. unfold initXO, logDebug.
  cbv [bind isEligible emit ret]. cbn [eligibility push with_trace].
  by rewrite He.
Qed.

Lemma initXO_eligible m w lc :
  namespace w = Some lc -> eligibility w = true ->
  initXO m w
  = (Ret tt,
     push (Render (handles w))
       (armed m (handles w) (handles w) (handles w) lc
          (with_handles (S (handles w))
             (pushes [Log LevelDebug "initxo" [];
                      IsEligible true;
                      Log LevelInfo "init_checkout" [];
                      SetAutocloseParentTemplate false;
                      Init {| p_uid := default VUndef (window w !! "pp_uid");
                              p_paymentToken := TokenProvider;
                              p_url := UrlAbsent |} (handles w)] w)))).
Proof.
  intros Hns He. unfold initXO, logDebug.
  rewrite (bind_ret (emit (Log LevelDebug "initxo" [])) _ w tt
             (pushes [Log LevelDebug "initxo" []] w) eq_refl).
  assert (Hel : isEligible (pushes [Log LevelDebug "initxo" []] w)
                = (Ret true, pushes [Log LevelDebug "initxo" []; IsEligible true] w)).
  { cbv [bind isEligible emit ret]. cbn [eligibility pushes fold_left push with_trace].
    by rewrite He. }
  rewrite (bind_ret _ _ _ _ _ Hel). cbn [negb].
  assert (Hns' : namespace (pushes [Log LevelDebug "initxo" []; IsEligible true] w) = Some lc)
    by by rewrite namespace_pushes.
  rewrite (bind_ret _ _ _ _ _ (initPayPalCheckout_provider m UrlAbsent _ lc Hns')).
  reflexivity.
Qed.

Lemma closeFlow_run w :
  closeFlow w
  = (Ret tt,
     pushes [Log LevelDebug "closeflow" [];
             ConsoleWarn "Checkout is not open, can not be closed"] w).
Proof. reflexivity. Qed.

(** What the module's own entry points do to a page when no component
    asks for its token: calls, and one more component at most. *)
Lemma public_entry_run m (e : EntryPoint) arg w :
  (e = CallInitXO -> eligibility w = false) ->
  exists cs n,
    snd (apply_fn (entry_function m e) arg w) = with_handles n (pushes cs w) /\
    handles w <= n /\
    List.filter acquisition_call cs = [].
Proof.
  intros Hgate. destruct e; cbn [entry_function apply_fn].
  - rewrite (initXO_ineligible m w (Hgate eq_refl)). cbn [snd].
    eexists _, _. split; [apply pushes_with_handles|]. by split.
  - destruct (parseToken arg) as [t|] eqn:Hp.
    + destruct (eligibility w) eqn:He.
      * rewrite (startFlow_eligible m arg t w Hp He). cbn [snd].
        eexists _, _. split; [reflexivity|]. split; [lia|done].
      * rewrite (startFlow_ineligible m arg t w Hp He). cbn [snd].
        eexists _, _. split; [apply pushes_with_handles|]. by split.
    + rewrite (startFlow_notoken m arg w Hp). cbn [snd].
      eexists _, _. split; [apply pushes_with_handles|]. by split.
  - rewrite closeFlow_run. cbn [snd].
    eexists _, _. split; [apply pushes_with_handles|]. by split.
Qed.

End EntryPoints.

(** X5. In an eligible context, [startFlow] with an input that parses to a
    token makes one component and renders it.  The component gets the
    parsed token itself as [paymentToken], not the input and not the
    provider [getPaymentToken]; its [url] is [null] for a bare token and
    the input otherwise.  Nothing is redirected, no acquisition is
    touched, the slots are as before. *)
Theorem startFlow_eligible_renders m s t w :
  parseToken (Some s) = Some t ->
  eligibility w = true ->
  let w' := run (startFlow m (Some s)) w in
  outcome (startFlow m (Some s)) w = Ret tt /\
  calls_since w w'
  = [Log LevelDebug "startflow" [("token", Some s)];
     IsEligible true;
     Log LevelInfo "init_checkout" [];
     SetAutocloseParentTemplate false;
     Init {| p_uid := default VUndef (window w !! "pp_uid");
             p_paymentToken := TokenValue (Some t);
             p_url := if canonical s then UrlNull else UrlValue (Some s) |}
       (handles w);
     Render (handles w)] /\
  read_slots w' = read_slots w /\
  handles w' = S (handles w).
Proof.
  intros Hp He. cbn zeta. unfold outcome, run.
  rewrite (startFlow_eligible m (Some s) t w Hp He). cbn [fst snd].
  rewrite calls_since_with_handles. cbn [matchToken].
  rewrite match_bare_canonical. done.
Qed.

Lemma startFlow_eligible_renders_witness :
  parseToken (Some "https://www.paypal.com/checkoutnow?token=EC-ABCDE12345FGHIJ67")
  = Some "EC-ABCDE12345FGHIJ67" /\
  eligibility (loaded_page true) = true /\
  calls_since (loaded_page true)
    (run (startFlow loaded_module (Some "https://www.paypal.com/checkoutnow?token=EC-ABCDE12345FGHIJ67"))
       (loaded_page true))
  = [Log LevelDebug "startflow"
       [("token", Some "https://www.paypal.com/checkoutnow?token=EC-ABCDE12345FGHIJ67")];
     IsEligible true;
     Log LevelInfo "init_checkout" [];
     SetAutocloseParentTemplate false;
     Init {| p_uid := VUndef;
             p_paymentToken := TokenValue (Some "EC-ABCDE12345FGHIJ67");
             p_url := UrlValue
                        (Some "https://www.paypal.com/checkoutnow?token=EC-ABCDE12345FGHIJ67") |}
       0;
     Render 0].
Proof.
  split; [reflexivity|]. split; [reflexivity|].
  exact (proj1 (proj2 (startFlow_eligible_renders loaded_module
                         "https://www.paypal.com/checkoutnow?token=EC-ABCDE12345FGHIJ67"
                         "EC-ABCDE12345FGHIJ67" (loaded_page true) eq_refl eq_refl))).
Defined.

(** X6. [initXO] is gated by eligibility.  In an ineligible context it
    asks the predicate and does nothing else.  In an eligible one it makes
    one component, with [getPaymentToken] as the provider of its token
    and no [url], and renders it; the provider runs the moment the
    component is inited, so that on return the three slots hold the
    functions of this component's acquisition: the page is ready to hand
    over a token through [startFlow]. *)
Theorem initXO_is_gated m w lc :
  namespace w = Some lc ->
  let h := handles w in
  let w' := run (initXO m) w in
  outcome (initXO m) w = Ret tt /\
  calls_since w w'
  = Log LevelDebug "initxo" [] :: IsEligible (eligibility w) ::
    (if eligibility w then
       [Log LevelInfo "init_checkout" [];
        SetAutocloseParentTemplate false;
        Init {| p_uid := default VUndef (window w !! "pp_uid");
                p_paymentToken := TokenProvider;
                p_url := UrlAbsent |} h;
        Render h]
     else []) /\
  (eligibility w = true ->
   runs w' (slot w' "initXO") FTokenInitXO /\
   runs w' (slot w' "startFlow") (FTokenStartFlow m h h h) /\
   runs w' (slot w' "closeFlow") (FTokenCloseFlow m h h h) /\
   handles w' = S h) /\
  (eligibility w = false ->
   heap w' = heap w /\ window w' = window w /\ handles w' = h).
Proof.
  intros Hns. cbn zeta. unfold outcome, run.
  destruct (eligibility w) eqn:He.
  - rewrite (initXO_eligible m w lc Hns He). cbn [fst snd].
    split; [done|]. split; [|split; [|done]].
    + erewrite calls_since_extends.
      2:{ rewrite trace_push, trace_armed, trace_with_handles.
          rewrite <- app_assoc. reflexivity. }
      rewrite map_app, map_call_at_slots. reflexivity.
    + intros _.
      assert (Hns' : namespace
                (with_handles (S (handles w))
                   (pushes [Log LevelDebug "initxo" [];
                            IsEligible true;
                            Log LevelInfo "init_checkout" [];
                            SetAutocloseParentTemplate false;
                            Init {| p_uid := default VUndef (window w !! "pp_uid");
                                    p_paymentToken := TokenProvider;
                                    p_url := UrlAbsent |} (handles w)] w)) = Some lc)
        by exact Hns.
      destruct (armed_runs m (handles w) (handles w) (handles w) _ lc Hns')
        as (Hi & Hs & Hc).
      repeat split; try done; by apply runs_push.
  - rewrite (initXO_ineligible m w He). cbn [fst snd].
    split; [done|]. split; [by rewrite calls_since_pushes|]. split; [done|].
    intros _. by rewrite heap_pushes, window_pushes, handles_pushes.
Qed.

Lemma initXO_is_gated_witness :
  namespace (loaded_page true) = Some 5 /\
  calls_since (loaded_page true) (run (initXO loaded_module) (loaded_page true))
  = [Log LevelDebug "initxo" [];
     IsEligible true;
     Log LevelInfo "init_checkout" [];
     SetAutocloseParentTemplate false;
     Init {| p_uid := VUndef; p_paymentToken := TokenProvider; p_url := UrlAbsent |} 0;
     Render 0] /\
  runs (run (initXO loaded_module) (loaded_page true))
    (slot (run (initXO loaded_module) (loaded_page true)) "startFlow")
    (FTokenStartFlow loaded_module 0 0 0).
Proof.
  assert (Hns : namespace (loaded_page true) = Some 5) by (vm_compute; reflexivity).
  pose proof (initXO_is_gated loaded_module (loaded_page true) 5 Hns)
    as (_ & Hcalls & Harmed & _).
  split; [exact Hns|]. split; [exact Hcalls|].
  exact (proj1 (proj2 (Harmed eq_refl))).
Defined.

(** X7. The module's own [startFlow] and [closeFlow], and [initXO] in an
    ineligible context, leave the page's objects alone and call no
    acquisition: whatever the input, the heap and the global object are
    the same afterwards (so are the slots), and no [resolve], [reject],
    [updateProps] or [close] is called.  ([initXO] in an eligible context
    is the one entry point that arms the slots.) *)
Theorem public_entry_points_frame m (e : EntryPoint) arg w :
  (e = CallInitXO -> eligibility w = false) ->
  let w' := run (apply_fn (entry_function m e) arg) w in
  heap w' = heap w /\
  window w' = window w /\
  read_slots w' = read_slots w /\
  List.filter acquisition_call (calls_since w w') = [].
Proof.
  intros Hgate. cbn zeta. unfold run.
  destruct (public_entry_run m e arg w Hgate) as (cs & n & -> & _ & Hcs).
  rewrite calls_since_with_handles.
  repeat split; try done.
  - apply (heap_pushes cs w).
  - apply (window_pushes cs w).
  - apply (read_slots_pushes cs w).
Qed.

Lemma public_entry_points_frame_witness :
  eligibility (loaded_page false) = false /\
  heap (run (apply_fn (entry_function loaded_module CallInitXO) None) (loaded_page false))
  = heap (loaded_page false) /\
  List.filter acquisition_call
    (calls_since (loaded_page false)
       (run (apply_fn (entry_function loaded_module CallInitXO) None) (loaded_page false)))
  = [].
Proof.
  pose proof (public_entry_points_frame loaded_module CallInitXO None (loaded_page false)
                (fun _ => eq_refl)) as (Hheap & _ & _ & Hcalls).
  split; [reflexivity|]. split; [exact Hheap|exact Hcalls].
Defined.

(** ** The bridge over a sequence of calls *)

Section Flow.

Lemma runs_same_heap w w' v f : heap w' = heap w -> runs w v f -> runs w' v f.
Proof. intros Hh. rewrite !runs_inv, Hh. done. Qed.

Lemma namespace_same_objects w w' :
  heap w' = heap w -> window w' = window w -> namespace w' = namespace w.
Proof. intros Hh Hg. unfold namespace. by rewrite Hh, Hg. Qed.

Lemma read_slots_same_objects w w' :
  heap w' = heap w -> window w' = window w -> read_slots w' = read_slots w.
Proof. intros Hh Hg. unfold read_slots, slot. by rewrite Hh, Hg. Qed.

Lemma module_at_same_heap m w w' : heap w' = heap w -> module_at w m -> module_at w' m.
Proof.
  intros Hh (H1 & H2 & H3). repeat split; by apply (runs_same_heap w).
Qed.

Lemma module_at_store m w l p v : module_at w m -> module_at (store l p v w) m.
Proof. intros (H1 & H2 & H3). repeat split; by apply runs_store. Qed.

Lemma module_at_restored m m' lc w : module_at w m -> module_at (restored m' lc w) m.
Proof. intros H. unfold restored. by repeat apply module_at_store. Qed.

Lemma module_at_armed m m' self resolve reject lc w :
  module_at w m -> module_at (armed m' self resolve reject lc w) m.
Proof.
  intros (H1 & H2 & H3). unfold armed. repeat split; by repeat apply runs_armed_slot.
Qed.

Lemma module_at_pushes m cs w : module_at w m -> module_at (pushes cs w) m.
Proof. apply module_at_same_heap, heap_pushes. Qed.

Lemma idle_same_objects m lc w w' :
  heap w' = heap w -> window w' = window w -> idle m lc w -> idle m lc w'.
Proof.
  intros Hh Hg (Hns & Hm & Hsl). repeat split.
  - by rewrite (namespace_same_objects w w').
  - by apply (module_at_same_heap m w).
  - by apply (module_at_same_heap m w).
  - by apply (module_at_same_heap m w).
  - by rewrite (read_slots_same_objects w w').
Qed.

Lemma pending_same_objects m self resolve reject lc w w' :
  heap w' = heap w -> window w' = window w ->
  pending m self resolve reject lc w -> pending m self resolve reject lc w'.
Proof.
  intros Hh Hg (Hns & Hm & Hi & Hs & Hc).
  assert (Hslot : forall name, slot w' name = slot w name).
  { intros name. unfold slot. by rewrite Hh, Hg. }
  split; [by rewrite (namespace_same_objects w w')|].
  split; [by apply (module_at_same_heap m w)|].
  rewrite !Hslot. repeat split; by apply (runs_same_heap w).
Qed.

(** A handler leaves the page idle. *)
Lemma idle_entered m lc first cs w :
  namespace w = Some lc -> module_at w m ->
  idle m lc (pushes cs (entered m lc first w)).
Proof.
  intros Hns Hm.
  apply (idle_same_objects m lc (entered m lc first w));
    [apply heap_pushes|apply window_pushes|].
  split; [by apply namespace_restored|].
  split; [by apply module_at_restored, (module_at_same_heap m w)|].
  by apply read_slots_entered.
Qed.

Lemma pending_armed m self resolve reject lc w :
  namespace w = Some lc -> module_at w m ->
  pending m self resolve reject lc (armed m self resolve reject lc w).
Proof.
  intros Hns Hm. split; [by apply namespace_armed|].
  split; [by apply module_at_armed|]. by apply armed_runs.
Qed.

(** One call on an idle page.  No acquisition is called.  The page stays
    idle, except that [initXO] in an eligible context makes a component
    whose acquisition is pending on return. *)
Lemma idle_step m lc e arg w :
  idle m lc w ->
  exists evs,
    trace (run (call_checkout (entry_name e) arg) w) = trace w ++ evs /\
    List.filter acquisition_call (map call evs) = [] /\
    ((idle m lc (run (call_checkout (entry_name e) arg) w) /\
      handles w <= handles (run (call_checkout (entry_name e) arg) w)) \/
     (pending m (handles w) (handles w) (handles w) lc
        (run (call_checkout (entry_name e) arg) w) /\
      handles (run (call_checkout (entry_name e) arg) w) = S (handles w))).
Proof.
  intros Hidle. pose proof Hidle as (Hns & (Hi & Hs & Hc) & Hsl).
  assert (Hslot : slot w (entry_name e)
                  = VRef (match e with
                          | CallInitXO => m_initXO m
                          | CallStartFlow => m_startFlow m
                          | CallCloseFlow => m_closeFlow m
                          end)).
  { unfold read_slots, module_slots in Hsl. injection Hsl as H1 H2 H3.
    by destruct e. }
  assert (Hrun : runs w (slot w (entry_name e)) (entry_function m e)).
  { rewrite Hslot. by destruct e. }
  unfold run. rewrite (call_checkout_run w lc _ arg _ Hns Hrun).
  assert (Hframe :
            (e = CallInitXO -> eligibility w = false) ->
            exists evs,
              trace (snd (apply_fn (entry_function m e) arg w)) = trace w ++ evs /\
              List.filter acquisition_call (map call evs) = [] /\
              ((idle m lc (snd (apply_fn (entry_function m e) arg w)) /\
                handles w <= handles (snd (apply_fn (entry_function m e) arg w))) \/
               (pending m (handles w) (handles w) (handles w) lc
                  (snd (apply_fn (entry_function m e) arg w)) /\
                handles (snd (apply_fn (entry_function m e) arg w)) = S (handles w)))).
  { intros Hgate.
    destruct (public_entry_run m e arg w Hgate) as (cs & n & -> & Hn & Hcs).
    exists (map (at_slots (read_slots w)) cs).
    split; [apply trace_with_handles|]. split; [by rewrite map_call_at_slots|].
    left. split; [|exact Hn].
    apply (idle_same_objects m lc w); [apply (heap_pushes cs w)|apply (window_pushes cs w)|done]. }
  destruct (eligibility w) eqn:He; [|by apply Hframe].
  destruct e; [|by apply Hframe|by apply Hframe].
  cbn [entry_function apply_fn]. rewrite (initXO_eligible m w lc Hns He). cbn [snd].
  eexists. split.
  { rewrite trace_push, trace_armed, trace_with_handles, <- app_assoc. reflexivity. }
  split; [rewrite map_app, map_call_at_slots; reflexivity|].
  right. split; [|reflexivity].
  eapply pending_same_objects; [| |apply pending_armed]; [done|done| |].
  - exact Hns.
  - apply (module_at_same_heap m w); [|done].
    apply (heap_pushes _ w).
Qed.

(** One call while an acquisition is pending: [initXO] only logs and the
    acquisition stays pending; [startFlow] and [closeFlow] leave the page
    idle, having called this acquisition only and settled it at most
    once.  No component is made. *)
Lemma pending_step m self resolve reject lc e arg w :
  pending m self resolve reject lc w ->
  exists evs,
    trace (run (call_checkout (entry_name e) arg) w) = trace w ++ evs /\
    handles (run (call_checkout (entry_name e) arg) w) = handles w /\
    Forall (fun c => acquisition_call c = true -> touches self resolve reject c = true)
      (map call evs) /\
    ((pending m self resolve reject lc (run (call_checkout (entry_name e) arg) w) /\
      List.filter acquisition_call (map call evs) = []) \/
     (idle m lc (run (call_checkout (entry_name e) arg) w) /\
      settled_once resolve reject (List.filter is_settle (map call evs)))).
Proof.
  intros (Hns & Hm & Hi & Hs & Hc). unfold run. destruct e; cbn [entry_name].
  - rewrite (call_checkout_run w lc _ arg _ Hns Hi). cbn [apply_fn snd].
    exists [at_slots (read_slots w) (Log LevelDebug "paymenttoken_initxo" [])].
    split; [done|]. split; [done|]. split; [by repeat constructor|]. left. split; [|done].
    split; [done|]. split; [by apply (module_at_same_heap m w)|].
    repeat split; by apply (runs_same_heap w).
  - rewrite (call_checkout_run w lc _ arg _ Hns Hs). cbn [apply_fn].
    assert (Hshape : exists cs,
              snd (capture_startFlow m self resolve arg w)
              = pushes cs (entered m lc (Log LevelDebug "paymenttoken_startflow"
                                           [("token", arg)]) w) /\
              Forall (fun c => acquisition_call c = true ->
                               touches self resolve reject c = true) cs /\
              settled_once resolve reject (List.filter is_settle cs)).
    { destruct (parseToken arg) as [t|] eqn:Hp.
      - destruct (eligibility w) eqn:He.
        + destruct (matchToken arg) eqn:Hmt.
          * rewrite (capture_startFlow_token m self resolve arg t w lc Hns Hp He Hmt).
            eexists. split; [reflexivity|]. split.
            -- repeat constructor; try done. intros _. simpl. apply Nat.eqb_refl.
            -- right. left. by exists t.
          * rewrite (capture_startFlow_url m self resolve arg t w lc Hns Hp He Hmt).
            eexists. split; [reflexivity|]. split.
            -- repeat constructor; try done; intros _; simpl; apply Nat.eqb_refl.
            -- right. left. by exists t.
        + rewrite (capture_startFlow_ineligible m self resolve arg t w lc Hns Hp He).
          eexists. split; [reflexivity|]. split; [by repeat constructor|by left].
      - rewrite (capture_startFlow_notoken m self resolve arg w lc Hns Hp).
        eexists. split; [reflexivity|]. split; [by repeat constructor|by left]. }
    destruct Hshape as (cs & -> & Hcalls & Hsettle).
    exists (at_slots (read_slots w) (Log LevelDebug "paymenttoken_startflow" [("token", arg)])
              :: map (at_slots (module_slots m)) cs).
    split; [|split; [|split]].
    + rewrite trace_pushes, trace_entered, (read_slots_entered m lc _ w Hns).
      by rewrite <- app_assoc.
    + by rewrite handles_pushes.
    + cbn [map call at_slots]. rewrite map_call_at_slots. by constructor.
    + right. split; [by apply idle_entered|].
      cbn [map call at_slots List.filter is_settle]. by rewrite map_call_at_slots.
  - rewrite (call_checkout_run w lc _ arg _ Hns Hc). cbn [apply_fn].
    rewrite (capture_closeFlow_run m self reject w lc Hns). cbn [snd].
    exists (at_slots (read_slots w) (Log LevelWarning "paymenttoken_closeflow" [])
              :: map (at_slots (module_slots m))
                   [Reject reject "Close Flow Called"; Close self]).
    split; [|split; [|split]].
    + rewrite trace_pushes, trace_entered, (read_slots_entered m lc _ w Hns).
      by rewrite <- app_assoc.
    + by rewrite handles_pushes.
    + repeat constructor; try done; intros _; simpl; apply Nat.eqb_refl.
    + right. split; [by apply idle_entered|]. by right; right.
Qed.

(** *** Calls, one by one *)

Lemma filter_none (f : Call -> bool) l :
  Forall (fun c => f c = false) l -> List.filter f l = [].
Proof.
  induction 1 as [|c l Hc _ IH]; [done|]. simpl. by rewrite Hc.
Qed.

Lemma filter_none_inv (f : Call -> bool) l :
  List.filter f l = [] -> Forall (fun c => f c = false) l.
Proof.
  induction l as [|c l IH]; [constructor|]. simpl.
  destruct (f c) eqn:Hc; [done|]. intros H. constructor; [done|by apply IH].
Qed.

Lemma filter_same (f g : Call -> bool) l :
  Forall (fun c => f c = g c) l -> List.filter f l = List.filter g l.
Proof.
  induction 1 as [|c l Hc _ IH]; [done|]. simpl. by rewrite Hc, IH.
Qed.

Lemma settles_acquisition_call r j c : settles r j c = true -> acquisition_call c = true.
Proof. by destruct c. Qed.

Lemma settles_touches s r j c : settles r j c = true -> touches s r j c = true.
Proof. by destruct c. Qed.

Lemma touches_acquisition_call s r j c : touches s r j c = true -> acquisition_call c = true.
Proof. by destruct c. Qed.

Lemma newer_le n n' c : n <= n' -> newer n' c = true -> newer n c = true.
Proof.
  intros Hn. destruct c; simpl; try done; rewrite !Nat.leb_le; lia.
Qed.

Lemma touches_newer h c : touches h h h c = true -> newer h c = true.
Proof.
  destruct c; simpl; try done; rewrite Nat.eqb_eq, Nat.leb_le; lia.
Qed.

(** A call to a component made later is no settlement of an earlier
    acquisition. *)
Lemma newer_not_settles n r j c :
  r < n -> j < n -> newer n c = true -> settles r j c = false.
Proof.
  intros Hr Hj. destruct c; simpl; try done; rewrite Nat.leb_le, Nat.eqb_neq; lia.
Qed.

Lemma newer_not_touches n s r j c :
  s < n -> r < n -> j < n -> newer n c = true -> touches s r j c = false.
Proof.
  intros Hs Hr Hj. destruct c; simpl; try done; rewrite Nat.leb_le, Nat.eqb_neq; lia.
Qed.

(** A call to one acquisition is no settlement of another. *)
Lemma touches_not_settles s r j h c :
  h <> r -> h <> j -> touches s r j c = true -> settles h h c = false.
Proof.
  intros Hr Hj. destruct c; simpl; try done; rewrite Nat.eqb_eq, Nat.eqb_neq; lia.
Qed.

Lemma touches_settles s r j c :
  (acquisition_call c = true -> touches s r j c = true) -> settles r j c = is_settle c.
Proof. destruct c; simpl; try done; intros H; by rewrite (H eq_refl). Qed.

Lemma page_calls_cons e arg cs w :
  page_calls ((e, arg) :: cs) w
  = page_calls cs (run (call_checkout (entry_name e) arg) w).
Proof. reflexivity. Qed.

(** *** Any calls *)

(** On an idle page, every acquisition called later belongs to a
    component made later, and each is settled at most once.  While an
    acquisition is pending, the calls go to it or to a component made
    later, and it is settled at most once. *)
Lemma flow_calls m lc cs :
  forall w,
    (idle m lc w ->
     exists evs,
       trace (page_calls cs w) = trace w ++ evs /\
       Forall (fun c => acquisition_call c = true -> newer (handles w) c = true)
         (map call evs) /\
       forall h, settled_once h h (List.filter (settles h h) (map call evs))) /\
    (forall s r j,
       pending m s r j lc w -> s < handles w -> r < handles w -> j < handles w ->
       exists evs,
         trace (page_calls cs w) = trace w ++ evs /\
         Forall (fun c => acquisition_call c = true ->
                          touches s r j c = true \/ newer (handles w) c = true)
           (map call evs) /\
         settled_once r j (List.filter (settles r j) (map call evs)) /\
         forall h, handles w <= h ->
                   settled_once h h (List.filter (settles h h) (map call evs))).
Proof.
  induction cs as [|[e arg] cs IH]; intros w.
  { split.
    - intros _. exists []. rewrite app_nil_r. split; [done|].
      split; [constructor|]. intros h. by left.
    - intros s r j _ _ _ _. exists []. rewrite app_nil_r. split; [done|].
      split; [constructor|]. split; [by left|]. intros h _. by left. }
  split.
  - intros Hidle. rewrite page_calls_cons.
    destruct (idle_step m lc e arg w Hidle)
      as (evs1 & Ht1 & H1%filter_none_inv & [[Hidle' Hn]|[Hpend Hn]]).
    + destruct (proj1 (IH _) Hidle') as (evs2 & Ht2 & Hf2 & Ho2).
      exists (evs1 ++ evs2). split; [by rewrite Ht2, Ht1, <- app_assoc|].
      rewrite map_app. split.
      * apply Forall_app. split.
        -- eapply Forall_impl; [exact H1|]. intros c Hc. by rewrite Hc.
        -- eapply Forall_impl; [exact Hf2|]. intros c Hc Hacq.
           by apply (newer_le _ _ _ Hn), Hc.
      * intros h. rewrite List.filter_app, (filter_none (settles h h) (map call evs1)).
        -- apply Ho2.
        -- eapply Forall_impl; [exact H1|]. intros c Hc.
           apply not_true_is_false. intros Hst%settles_acquisition_call. congruence.
    + destruct (proj2 (IH _) _ _ _ Hpend ltac:(lia) ltac:(lia) ltac:(lia))
        as (evs2 & Ht2 & Hf2 & Ho2 & Hh2).
      exists (evs1 ++ evs2). split; [by rewrite Ht2, Ht1, <- app_assoc|].
      rewrite map_app. split.
      * apply Forall_app. split.
        -- eapply Forall_impl; [exact H1|]. intros c Hc. by rewrite Hc.
        -- eapply Forall_impl; [exact Hf2|]. intros c Hc Hacq.
           destruct (Hc Hacq) as [Ht|Hnew]; [by apply touches_newer|].
           apply (newer_le _ (handles (run (call_checkout (entry_name e) arg) w)));
             [lia|done].
      * intros h. rewrite List.filter_app, (filter_none (settles h h) (map call evs1)).
        2:{ eapply Forall_impl; [exact H1|]. intros c Hc.
            apply not_true_is_false.
            intros Hst%settles_acquisition_call. congruence. }
        cbn [app].
        destruct (decide (h = handles w)) as [->|Hne]; [exact Ho2|].
        destruct (decide (handles w < h)) as [Hlt|Hge]; [apply Hh2; lia|].
        assert (Hold : h < handles (run (call_checkout (entry_name e) arg) w)) by lia.
        left. apply filter_none.
        eapply Forall_impl; [exact Hf2|]. intros c Hc.
        apply not_true_is_false. intros Hst.
        destruct (Hc (settles_acquisition_call _ _ _ Hst)) as [Ht|Hnew].
        -- rewrite (touches_not_settles _ _ _ h c Hne Hne Ht) in Hst. done.
        -- rewrite (newer_not_settles _ h h c Hold Hold Hnew) in Hst. done.
  - intros s r j Hpend Hs Hr Hj. rewrite page_calls_cons.
    destruct (pending_step m s r j lc e arg w Hpend)
      as (evs1 & Ht1 & Hn & Hown1 & [[Hpend' H1%filter_none_inv]|[Hidle' H1]]).
    + destruct (proj2 (IH _) _ _ _ Hpend' ltac:(lia) ltac:(lia) ltac:(lia))
        as (evs2 & Ht2 & Hf2 & Ho2 & Hh2).
      rewrite Hn in Hf2, Hh2.
      assert (Hquiet : forall a b, List.filter (settles a b) (map call evs1) = []).
      { intros a b. apply filter_none. eapply Forall_impl; [exact H1|]. intros c Hc.
        apply not_true_is_false.
        intros Hst%settles_acquisition_call. congruence. }
      exists (evs1 ++ evs2). split; [by rewrite Ht2, Ht1, <- app_assoc|].
      rewrite map_app. split; [|split].
      * apply Forall_app. split; [|done].
        eapply Forall_impl; [exact Hown1|]. intros c Hc Hacq. left. by apply Hc.
      * by rewrite List.filter_app, Hquiet.
      * intros h Hh. rewrite List.filter_app, Hquiet. by apply Hh2.
    + destruct (proj1 (IH _) Hidle') as (evs2 & Ht2 & Hf2 & Ho2).
      rewrite Hn in Hf2.
      exists (evs1 ++ evs2). split; [by rewrite Ht2, Ht1, <- app_assoc|].
      rewrite map_app. split; [|split].
      * apply Forall_app. split.
        -- eapply Forall_impl; [exact Hown1|]. intros c Hc Hacq. left. by apply Hc.
        -- eapply Forall_impl; [exact Hf2|]. intros c Hc Hacq. right. by apply Hc.
      * rewrite List.filter_app.
        rewrite (filter_none (settles r j) (map call evs2)).
        2:{ eapply Forall_impl; [exact Hf2|]. intros c Hc.
            apply not_true_is_false. intros Hst.
            rewrite (newer_not_settles _ r j c Hr Hj
                       (Hc (settles_acquisition_call _ _ _ Hst))) in Hst. done. }
        rewrite app_nil_r.
        rewrite (filter_same (settles r j) is_settle (map call evs1)); [done|].
        eapply Forall_impl; [exact Hown1|]. intros c Hc. by apply (touches_settles s).
      * intros h Hh. rewrite List.filter_app.
        rewrite (filter_none (settles h h) (map call evs1)); [apply Ho2|].
        eapply Forall_impl; [exact Hown1|]. intros c Hc.
        apply not_true_is_false. intros Hst.
        rewrite (touches_not_settles s r j h c ltac:(lia) ltac:(lia)
                   (Hc (settles_acquisition_call _ _ _ Hst))) in Hst. done.
Qed.

End Flow.

(** X8. While an acquisition is pending, [window.paypal.checkout.initXO] is
    a function that writes one log line and nothing else: no eligibility
    check, no second component, and the heap, hence the three slots and
    the pending acquisition, are as they were. *)
Theorem pending_initXO_is_inert m self resolve reject arg w lc :
  namespace w = Some lc ->
  let w1 := after_arming m self resolve reject w in
  let w2 := run (call_checkout "initXO" arg) w1 in
  outcome (call_checkout "initXO" arg) w1 = Ret tt /\
  calls_since w1 w2 = [Log LevelDebug "paymenttoken_initxo" []] /\
  heap w2 = heap w1 /\ window w2 = window w1 /\
  runs w2 (slot w2 "initXO") FTokenInitXO /\
  runs w2 (slot w2 "startFlow") (FTokenStartFlow m self resolve reject) /\
  runs w2 (slot w2 "closeFlow") (FTokenCloseFlow m self resolve reject).
Proof.
  intros Hns. cbn zeta.
  rewrite (after_arming_armed _ _ _ _ _ lc Hns).
  destruct (armed_runs m self resolve reject w lc Hns) as (Hi & Hs & Hc).
  unfold outcome, run.
  rewrite (call_checkout_run _ lc "initXO" arg _
             (namespace_armed m self resolve reject w lc Hns) Hi).
  cbn [apply_fn fst snd]. split; [done|]. split.
  { apply (calls_since_pushes [Log LevelDebug "paymenttoken_initxo" []]). }
  repeat split; try done; by apply (runs_same_heap (armed m self resolve reject lc w)).
Qed.

Lemma pending_initXO_is_inert_witness :
  namespace (loaded_page true) = Some 5 /\
  calls_since (after_arming loaded_module 7 8 9 (loaded_page true))
    (run (call_checkout "initXO" None)
       (after_arming loaded_module 7 8 9 (loaded_page true)))
  = [Log LevelDebug "paymenttoken_initxo" []].
Proof.
  assert (Hns : namespace (loaded_page true) = Some 5) by (vm_compute; reflexivity).
  split; [exact Hns|].
  exact (proj1 (proj2 (pending_initXO_is_inert loaded_module 7 8 9 None
                         (loaded_page true) 5 Hns))).
Defined.

(** X9. [getPaymentToken] returns at once, without a call to anyone, and
    changes three properties of [window.paypal.checkout] only: [initXO],
    [startFlow] and [closeFlow] now run the functions made for this
    acquisition; every other property of the namespace ([setup],
    [events], ...) and every function object in the heap is as before. *)
Theorem getPaymentToken_frame m self resolve reject w lc :
  namespace w = Some lc ->
  let w1 := after_arming m self resolve reject w in
  outcome (getPaymentToken m self resolve reject) w = Ret tt /\
  trace w1 = trace w /\
  window w1 = window w /\
  runs w1 (slot w1 "initXO") FTokenInitXO /\
  runs w1 (slot w1 "startFlow") (FTokenStartFlow m self resolve reject) /\
  runs w1 (slot w1 "closeFlow") (FTokenCloseFlow m self resolve reject) /\
  (forall name, name <> "initXO" -> name <> "startFlow" -> name <> "closeFlow" ->
                slot w1 name = slot w name) /\
  (forall v f, runs w v f -> runs w1 v f).
Proof.
  intros Hns. cbn zeta.
  rewrite (after_arming_armed _ _ _ _ _ lc Hns).
  unfold outcome. rewrite (getPaymentToken_run _ _ _ _ _ lc Hns). cbn [fst].
  destruct (armed_runs m self resolve reject w lc Hns) as (Hi & Hs & Hc).
  repeat split; try done.
  - intros name H1 H2 H3. unfold armed.
    pose proof (namespace_armed_slot w lc "initXO" FTokenInitXO Hns
                  ltac:(done)) as Hns1.
    pose proof (namespace_armed_slot _ lc "startFlow"
                  (FTokenStartFlow m self resolve reject) Hns1 ltac:(done)) as Hns2.
    rewrite !slot_armed_slot by done.
    by repeat case_decide.
  - intros v f Hv. unfold armed. by repeat apply runs_armed_slot.
Qed.

Lemma getPaymentToken_frame_witness :
  namespace (loaded_page true) = Some 5 /\
  outcome (getPaymentToken loaded_module 7 8 9) (loaded_page true) = Ret tt /\
  trace (after_arming loaded_module 7 8 9 (loaded_page true)) = trace (loaded_page true).
Proof.
  assert (Hns : namespace (loaded_page true) = Some 5) by (vm_compute; reflexivity).
  pose proof (getPaymentToken_frame loaded_module 7 8 9 (loaded_page true) 5 Hns)
    as (Hret & Htrace & _).
  split; [exact Hns|]. split; [exact Hret|exact Htrace].
Defined.



Lemma rendered_page_ready :
  namespace rendered_page = Some 5 /\ module_at rendered_page loaded_module /\
  handles rendered_page = 1.
Proof.
  split; [vm_compute; reflexivity|]. split; [|vm_compute; reflexivity].
  unfold module_at, runs. split; [|split]; vm_compute; reflexivity.
Qed.

Lemma rendered_twice_ready :
  namespace (run (call_checkout "startFlow" (Some "ABCDE12345FGHIJ67")) rendered_page)
  = Some 5 /\
  module_at (run (call_checkout "startFlow" (Some "ABCDE12345FGHIJ67")) rendered_page)
    loaded_module /\
  handles (run (call_checkout "startFlow" (Some "ABCDE12345FGHIJ67")) rendered_page) = 2.
Proof.
  split; [vm_compute; reflexivity|]. split; [|vm_compute; reflexivity].
  unfold module_at, runs. split; [|split]; vm_compute; reflexivity.
Qed.

(** X10. An acquisition is settled at most once.  After [getPaymentToken]
    has run for a component made before, whatever the page calls through
    [initXO], [startFlow] and [closeFlow] of the namespace, in any number
    and order and with any arguments, the calls to this acquisition's
    [resolve] and [reject] are none, or one [resolve] with a token, or
    one [reject] as closed.  Every other callback or component called
    belongs to a component that [initXO] made later, and the acquisition
    of each of those is settled at most once as well. *)
Theorem settled_at_most_once m self resolve reject w lc cs :
  namespace w = Some lc ->
  module_at w m ->
  self < handles w -> resolve < handles w -> reject < handles w ->
  let w1 := after_arming m self resolve reject w in
  settled_once resolve reject
    (List.filter (settles resolve reject) (calls_since w1 (page_calls cs w1))) /\
  Forall (fun c => acquisition_call c = true ->
                   touches self resolve reject c = true \/ newer (handles w) c = true)
    (calls_since w1 (page_calls cs w1)) /\
  (forall h, handles w <= h ->
             settled_once h h
               (List.filter (settles h h) (calls_since w1 (page_calls cs w1)))).
Proof.
  intros Hns Hm Hs Hr Hj. cbn zeta. rewrite (after_arming_armed _ _ _ _ _ lc Hns).
  destruct (proj2 (flow_calls m lc cs _) _ _ _
              (pending_armed m self resolve reject lc w Hns Hm) Hs Hr Hj)
    as (evs & Ht & Hown & Hsettled & Hlater).
  by rewrite (calls_since_extends _ _ evs Ht).
Qed.

Lemma settled_at_most_once_witness :
  namespace rendered_page = Some 5 /\
  module_at rendered_page loaded_module /\
  0 < handles rendered_page /\
  settled_once 0 0
    (List.filter (settles 0 0)
       (calls_since (after_arming loaded_module 0 0 0 rendered_page)
          (page_calls [(CallInitXO, None);
                       (CallStartFlow, Some "ABCDE12345FGHIJ67");
                       (CallInitXO, None);
                       (CallStartFlow, Some "ABCDE12345FGHIJ67");
                       (CallCloseFlow, None)]
             (after_arming loaded_module 0 0 0 rendered_page)))).
Proof.
  pose proof rendered_page_ready as (Hns & Hm & Hh).
  assert (Hlt : 0 < handles rendered_page) by (rewrite Hh; lia).
  split; [exact Hns|]. split; [exact Hm|]. split; [exact Hlt|].
  exact (proj1 (settled_at_most_once loaded_module 0 0 0 rendered_page 5
                  [(CallInitXO, None);
                   (CallStartFlow, Some "ABCDE12345FGHIJ67");
                   (CallInitXO, None);
                   (CallStartFlow, Some "ABCDE12345FGHIJ67");
                   (CallCloseFlow, None)] Hns Hm Hlt Hlt Hlt)).
Defined.

(** X11. The last arming wins.  When [getPaymentToken] runs for a second
    acquisition while a first one is pending, the first is never called
    again through the namespace: whatever the page calls afterwards,
    none of the calls goes to the first acquisition's [resolve],
    [reject] or component, and the second is settled at most once. *)
Theorem last_arming_wins m selfA resolveA rejectA selfB resolveB rejectB w lc cs :
  namespace w = Some lc ->
  module_at w m ->
  selfA < handles w -> resolveA < handles w -> rejectA < handles w ->
  selfB < handles w -> resolveB < handles w -> rejectB < handles w ->
  selfA <> selfB -> resolveA <> resolveB -> rejectA <> rejectB ->
  let wA := after_arming m selfA resolveA rejectA w in
  let wB := after_arming m selfB resolveB rejectB wA in
  Forall (fun c => touches selfA resolveA rejectA c = false)
    (calls_since wB (page_calls cs wB)) /\
  settled_once resolveB rejectB
    (List.filter (settles resolveB rejectB) (calls_since wB (page_calls cs wB))).
Proof.
  intros Hns Hm HsA HrA HjA HsB HrB HjB Hs Hr Hj. cbn zeta.
  rewrite (after_arming_armed m selfA _ _ _ lc Hns).
  pose proof (namespace_armed m selfA resolveA rejectA w lc Hns) as HnsA.
  pose proof (module_at_armed m m selfA resolveA rejectA lc w Hm) as HmA.
  rewrite (after_arming_armed m selfB _ _ _ lc HnsA).
  destruct (proj2 (flow_calls m lc cs _) _ _ _
              (pending_armed m selfB resolveB rejectB lc _ HnsA HmA) HsB HrB HjB)
    as (evs & Ht & Hown & Hsettled & _).
  rewrite (calls_since_extends _ _ evs Ht). split; [|done].
  eapply Forall_impl; [exact Hown|]. intros c Hc.
  apply not_true_is_false. intros Hta.
  destruct (Hc (touches_acquisition_call _ _ _ _ Hta)) as [Htb|Hnew].
  - destruct c; try done; simpl in *;
      apply Nat.eqb_eq in Hta; apply Nat.eqb_eq in Htb; congruence.
  - rewrite (newer_not_touches _ _ _ _ c HsA HrA HjA Hnew) in Hta. done.
Qed.

Lemma last_arming_wins_witness :
  namespace (run (call_checkout "startFlow" (Some "ABCDE12345FGHIJ67")) rendered_page)
  = Some 5 /\
  module_at (run (call_checkout "startFlow" (Some "ABCDE12345FGHIJ67")) rendered_page)
    loaded_module /\
  1 < handles (run (call_checkout "startFlow" (Some "ABCDE12345FGHIJ67")) rendered_page) /\
  Forall (fun c => touches 0 0 0 c = false)
    (calls_since
       (after_arming loaded_module 1 1 1
          (after_arming loaded_module 0 0 0
             (run (call_checkout "startFlow" (Some "ABCDE12345FGHIJ67")) rendered_page)))
       (page_calls [(CallStartFlow, Some "ABCDE12345FGHIJ67");
                    (CallInitXO, None);
                    (CallCloseFlow, None)]
          (after_arming loaded_module 1 1 1
             (after_arming loaded_module 0 0 0
                (run (call_checkout "startFlow" (Some "ABCDE12345FGHIJ67"))
                   rendered_page))))).
Proof.
  pose proof rendered_twice_ready as (Hns & Hm & Hh).
  assert (H0 : 0 < handles (run (call_checkout "startFlow" (Some "ABCDE12345FGHIJ67"))
                              rendered_page)) by (rewrite Hh; lia).
  assert (H1 : 1 < handles (run (call_checkout "startFlow" (Some "ABCDE12345FGHIJ67"))
                              rendered_page)) by (rewrite Hh; lia).
  split; [exact Hns|]. split; [exact Hm|]. split; [exact H1|].
  exact (proj1 (last_arming_wins loaded_module 0 0 0 1 1 1
                  (run (call_checkout "startFlow" (Some "ABCDE12345FGHIJ67")) rendered_page)
                  5
                  [(CallStartFlow, Some "ABCDE12345FGHIJ67");
                   (CallInitXO, None);
                   (CallCloseFlow, None)]
                  Hns Hm H0 H0 H0 H1 H1 H1
                  (Nat.neq_0_succ 0) (Nat.neq_0_succ 0) (Nat.neq_0_succ 0))).
Defined.



(** ** Installation, all branches *)

Section Install.

(** *** Reading through a write and through a new object *)

Lemma lookup_prop_store w l p v b q :
  lookup_prop (heap (store l p v w)) b q
  = if decide (b = VRef l /\ q = p) then v else lookup_prop (heap w) b q.
Proof.
  destruct b as [| |l'].
  - case_decide as H; [by destruct H|done].
  - case_decide as H; [by destruct H|done].
  - case_decide as H.
    + destruct H as [[= ->] ->]. cbn [lookup_prop store with_heap heap].
      rewrite lookup_insert_eq. unfold obj_get, obj_set. cbn [props].
      by rewrite lookup_insert_eq.
    + cbn [lookup_prop store with_heap heap].
      destruct (decide (l' = l)) as [->|Hl].
      * rewrite lookup_insert_eq. unfold obj_get, obj_set. cbn [props].
        rewrite lookup_insert_ne by naive_solver.
        by destruct (heap w !! l).
      * by rewrite lookup_insert_ne.
Qed.

Lemma lookup_prop_store_ne w l p v b q :
  q <> p -> lookup_prop (heap (store l p v w)) b q = lookup_prop (heap w) b q.
Proof. intros Hq. rewrite lookup_prop_store. case_decide as H; [by destruct H|done]. Qed.

Lemma lookup_prop_store_eq w l p v :
  lookup_prop (heap (store l p v w)) (VRef l) p = v.
Proof. rewrite lookup_prop_store. by rewrite decide_True. Qed.

(** Writing the value that is there changes no reading. *)
Lemma lookup_prop_store_same w l p v b q :
  lookup_prop (heap w) (VRef l) p = v ->
  lookup_prop (heap (store l p v w)) b q = lookup_prop (heap w) b q.
Proof.
  intros Hv. rewrite lookup_prop_store. case_decide as H; [|done].
  destruct H as [-> ->]. done.
Qed.

Lemma lookup_prop_place w o b q :
  props o = ∅ -> lookup_prop (heap (place o w)) b q = lookup_prop (heap w) b q.
Proof.
  intros Ho. destruct b as [| |l']; simpl; try done.
  destruct (decide (next_loc w = l')) as [<-|Hl].
  - rewrite lookup_insert_eq, next_loc_fresh. unfold obj_get. by rewrite Ho.
  - by rewrite lookup_insert_ne.
Qed.

Lemma lookup_prop_new w o q :
  props o = ∅ -> lookup_prop (heap (place o w)) (VRef (next_loc w)) q = VUndef.
Proof.
  intros Ho. rewrite lookup_prop_place by done. simpl. by rewrite next_loc_fresh.
Qed.

Lemma slot_unfold w name :
  slot w name = lookup_prop (heap w) (namespace_value w) name.
Proof. reflexivity. Qed.

Lemma namespace_value_store w l p v :
  p <> "checkout" \/ v = namespace_value w ->
  namespace_value (store l p v w) = namespace_value w.
Proof.
  intros [Hp| ->]; unfold namespace_value at 1; cbn [window store with_heap].
  - by apply lookup_prop_store_ne.
  - rewrite lookup_prop_store. by case_decide.
Qed.

Lemma namespace_value_place w o :
  props o = ∅ -> namespace_value (place o w) = namespace_value w.
Proof. intros Ho. by apply lookup_prop_place. Qed.

Lemma slot_store_other w l p v name :
  name <> p -> p <> "checkout" \/ v = namespace_value w ->
  slot (store l p v w) name = slot w name.
Proof.
  intros Hn Hp. rewrite !slot_unfold, namespace_value_store by done.
  by apply lookup_prop_store_ne.
Qed.

Lemma slot_store_hit w l p v :
  namespace_value w = VRef l -> p <> "checkout" -> slot (store l p v w) p = v.
Proof.
  intros Hnv Hp. rewrite slot_unfold, namespace_value_store by by left.
  rewrite Hnv. apply lookup_prop_store_eq.
Qed.

Lemma slot_place_empty w o name :
  props o = ∅ -> slot (place o w) name = slot w name.
Proof.
  intros Ho. rewrite !slot_unfold, namespace_value_place by done.
  by apply lookup_prop_place.
Qed.

Lemma checkout_namespace_value w lc :
  namespace_value w = VRef lc -> checkout_namespace w = (Ret (VRef lc), w).
Proof.
  unfold namespace_value, checkout_namespace, bind, get_window, get_prop.
  destruct (default VUndef (window w !! "paypal")) as [| |lp]; try done.
  by intros ->.
Qed.

Lemma namespace_of_value w lc :
  namespace_value w = VRef lc -> is_Some (heap w !! lc) -> namespace w = Some lc.
Proof.
  unfold namespace_value, namespace, lookup_prop, obj_get. intros Hnv [oc Hoc].
  destruct (window w !! "paypal") as [[| |lp]|]; try done. simpl in Hnv.
  destruct (heap w !! lp) as [op|]; [|done].
  destruct (props op !! "checkout") as [c|]; [|done]. simpl in Hnv. subst c.
  by rewrite Hoc.
Qed.

Lemma is_Some_store w l p v l' :
  is_Some (heap w !! l') -> is_Some (heap (store l p v w) !! l').
Proof.
  intros H. simpl. destruct (decide (l = l')) as [->|Hl].
  - rewrite lookup_insert_eq. by eexists.
  - by rewrite lookup_insert_ne.
Qed.

Lemma is_Some_store_hit w l p v : is_Some (heap (store l p v w) !! l).
Proof. simpl. rewrite lookup_insert_eq. by eexists. Qed.

Lemma is_Some_place w o l' :
  is_Some (heap w !! l') -> is_Some (heap (place o w) !! l').
Proof. intros [x Hx]. exists x. by apply lookup_place. Qed.

(** *** What is kept while the namespace is filled *)

Lemma runs_all_step fs w w' :
  (forall v f, runs w v f -> runs w' v f) ->
  Forall (fun vf => runs w (fst vf) (snd vf)) fs ->
  Forall (fun vf => runs w' (fst vf) (snd vf)) fs.
Proof. intros H HF. eapply Forall_impl; [exact HF|]. intros [v f]. apply H. Qed.

Lemma building_store lc t0 fs kv l p v w :
  building lc t0 fs kv w ->
  Forall (fun e => fst e <> p) kv ->
  p <> "checkout" \/ v = VRef lc ->
  building lc t0 fs kv (store l p v w).
Proof.
  intros (Hnv & Hlc & Ht & Hfs & Hkv) Hp Hv.
  assert (Hv' : p <> "checkout" \/ v = namespace_value w) by (rewrite Hnv; done).
  split; [by rewrite namespace_value_store|].
  split; [by apply is_Some_store|]. split; [done|]. split.
  - eapply runs_all_step; [|exact Hfs]. intros. by apply runs_store.
  - rewrite Forall_forall in Hp, Hkv |- *. intros e He.
    rewrite slot_store_other; [by apply Hkv|by apply Hp|done].
Qed.

Lemma building_place lc t0 fs kv o w :
  building lc t0 fs kv w -> props o = ∅ -> building lc t0 fs kv (place o w).
Proof.
  intros (Hnv & Hlc & Ht & Hfs & Hkv) Ho.
  split; [by rewrite namespace_value_place|].
  split; [by apply is_Some_place|]. split; [done|]. split.
  - eapply runs_all_step; [|exact Hfs]. intros. by apply runs_place.
  - eapply Forall_impl; [exact Hkv|]. intros e He. by rewrite slot_place_empty.
Qed.

Lemma building_window lc t0 fs kv p v w :
  building lc t0 fs kv w -> p <> "paypal" ->
  building lc t0 fs kv (with_window (<[p := v]> (window w)) w).
Proof.
  intros (Hnv & Hlc & Ht & Hfs & Hkv) Hp.
  assert (Hsame : forall name,
            slot (with_window (<[p := v]> (window w)) w) name = slot w name).
  { intros name. unfold slot. cbn [heap window with_window].
    by rewrite lookup_insert_ne. }
  split.
  { unfold namespace_value. cbn [heap window with_window].
    by rewrite lookup_insert_ne. }
  split; [done|]. split; [done|]. split.
  - eapply runs_all_step; [|exact Hfs]. intros v0 f. by apply runs_same_heap.
  - eapply Forall_impl; [exact Hkv|]. intros e He. by rewrite Hsame.
Qed.

Lemma building_add lc t0 fs kv k v w :
  namespace_value w = VRef lc -> trace w = t0 ->
  Forall (fun vf => runs w (fst vf) (snd vf)) fs ->
  Forall (fun e => slot w (fst e) = snd e) kv ->
  Forall (fun e => fst e <> k) kv -> k <> "checkout" ->
  building lc t0 fs ((k, v) :: kv) (store lc k v w).
Proof.
  intros Hnv Ht Hfs Hkv Hk Hc.
  split; [by rewrite namespace_value_store by by left|].
  split; [apply is_Some_store_hit|]. split; [done|]. split.
  - eapply runs_all_step; [|exact Hfs]. intros. by apply runs_store.
  - constructor; [by apply slot_store_hit|].
    rewrite Forall_forall in Hk, Hkv |- *. intros e He.
    rewrite slot_store_other; [by apply Hkv|by apply Hk|by left].
Qed.

Lemma aliases_plain_store l p v w :
  p <> "apps" -> aliases_plain w -> aliases_plain (store l p v w).
Proof.
  intros Hp [H1 H2]. split; [done|].
  change (PAYPAL_value (store l p v w)) with (PAYPAL_value w).
  by rewrite lookup_prop_store_ne.
Qed.

Lemma aliases_plain_place o w :
  props o = ∅ -> aliases_plain w -> aliases_plain (place o w).
Proof.
  intros Ho [H1 H2]. split; [done|].
  change (PAYPAL_value (place o w)) with (PAYPAL_value w).
  by rewrite lookup_prop_place.
Qed.

Lemma aliases_plain_window v w :
  aliases_plain w -> aliases_plain (with_window (<["paypal" := v]> (window w)) w).
Proof.
  intros [H1 H2].
  assert (HP : PAYPAL_value (with_window (<["paypal" := v]> (window w)) w)
               = PAYPAL_value w).
  { unfold PAYPAL_value. cbn [window with_window]. by rewrite lookup_insert_ne. }
  split; rewrite HP; done.
Qed.

(** *** The statements, one by one *)

Lemma assign_value_run w lc name v :
  namespace_value w = VRef lc ->
  assign_checkout name (ret v) w = (Ret tt, store lc name v w).
Proof.
  intros Hnv. unfold assign_checkout.
  by rewrite (bind_ret _ _ _ _ _ (checkout_namespace_value w lc Hnv)).
Qed.

Lemma events_ready_store l p v w :
  p <> "events" -> p <> "on" -> p <> "checkout" \/ v = namespace_value w ->
  events_ready w -> events_ready (store l p v w).
Proof.
  intros He Ho Hc H. unfold events_ready.
  rewrite slot_store_other, lookup_prop_store_ne by done.
  by apply runs_store.
Qed.

Lemma events_ready_place o w :
  props o = ∅ -> events_ready w -> events_ready (place o w).
Proof.
  intros Ho H. unfold events_ready.
  rewrite slot_place_empty, lookup_prop_place by done.
  by apply runs_place.
Qed.

Lemma events_ready_window p v w :
  p <> "paypal" -> events_ready w ->
  events_ready (with_window (<[p := v]> (window w)) w).
Proof.
  intros Hp H. unfold events_ready, slot. cbn [heap window with_window].
  rewrite lookup_insert_ne by done. by apply (runs_same_heap w).
Qed.

Lemma events_run w lc :
  namespace_value w = VRef lc ->
  assign_checkout "events"
    (e ← new_object; on ← new_function FEventsOn; set_prop e "on" on ;; ret e) w
  = (Ret tt,
     store lc "events" (VRef (next_loc w))
       (store (next_loc w) "on" (VRef (next_loc (place empty_obj w)))
          (place (fn_obj FEventsOn) (place empty_obj w)))).
Proof.
  intros Hnv. unfold assign_checkout.
  by rewrite (bind_ret _ _ _ _ _ (checkout_namespace_value w lc Hnv)).
Qed.

Lemma events_run_ready lc t0 fs kv w :
  building lc t0 fs kv w ->
  Forall (fun e => fst e <> "events") kv -> Forall (fun e => fst e <> "on") kv ->
  let w' := store lc "events" (VRef (next_loc w))
              (store (next_loc w) "on" (VRef (next_loc (place empty_obj w)))
                 (place (fn_obj FEventsOn) (place empty_obj w))) in
  building lc t0 fs kv w' /\ events_ready w'.
Proof.
  intros HB Hev Hon. cbn zeta.
  assert (HB3 : building lc t0 fs kv
                  (store (next_loc w) "on" (VRef (next_loc (place empty_obj w)))
                     (place (fn_obj FEventsOn) (place empty_obj w)))).
  { apply building_store; [|done|by left]. by repeat apply building_place. }
  split; [apply building_store; [done|done|by left]|].
  unfold events_ready.
  rewrite slot_store_hit; [|by destruct HB3|done].
  rewrite lookup_prop_store_ne by done. rewrite lookup_prop_store_eq.
  do 2 apply runs_store. apply runs_new.
Qed.

Lemma plain_truthy v : plain v = true -> truthy v = true -> exists l, v = VRef l.
Proof. destruct v as [|[|a s]|l]; try done. by exists l. Qed.

(** [x = x || {}] where [x] is read without effect. *)
Lemma default_object_run (read : M Value) v w :
  read w = (Ret v, w) ->
  default_object read w
  = if truthy v then (Ret v, w) else (Ret (VRef (next_loc w)), place empty_obj w).
Proof.
  intros Hr. unfold default_object. rewrite (bind_ret _ _ _ _ _ Hr).
  by destruct (truthy v).
Qed.

(** The two upper case aliases: the last four statements. *)
Lemma aliases_run lc t0 fs kv w :
  building lc t0 fs kv w -> events_ready w -> aliases_plain w ->
  Forall (fun e => fst e <> "checkout") kv -> Forall (fun e => fst e <> "apps") kv ->
  exists w',
    ((P ← default_object (get_window "PAYPAL"); set_window "PAYPAL" P) ;;
     (base ← get_window "PAYPAL";
      c ← checkout_namespace;
      set_prop base "checkout" c) ;;
     (base ← get_window "PAYPAL";
      a ← default_object (get_prop base "apps");
      set_prop base "apps" a) ;;
     (P ← get_window "PAYPAL";
      base ← get_prop P "apps";
      c ← checkout_namespace;
      set_prop base "checkout" c)) w = (Ret tt, w') /\
    building lc t0 fs kv w' /\ events_ready w' /\
    lookup_prop (heap w') (PAYPAL_value w') "checkout" = VRef lc /\
    lookup_prop (heap w') (lookup_prop (heap w') (PAYPAL_value w') "apps") "checkout"
    = VRef lc.
Proof.
  intros HB HE [HP HA] Hkc Hka.
  (* window.PAYPAL = window.PAYPAL || {} *)
  assert (H6 : exists w6 lP,
             bind (default_object (get_window "PAYPAL"))
               (fun P => set_window "PAYPAL" P) w = (Ret tt, w6) /\
             building lc t0 fs kv w6 /\ events_ready w6 /\
             PAYPAL_value w6 = VRef lP /\
             plain (lookup_prop (heap w6) (VRef lP) "apps") = true).
  { pose proof (default_object_run (get_window "PAYPAL") (PAYPAL_value w) w eq_refl)
      as Hd.
    destruct (truthy (PAYPAL_value w)) eqn:Ht; rewrite (bind_ret _ _ _ _ _ Hd).
    - destruct (plain_truthy _ HP Ht) as (lP & HlP).
      eexists _, lP. split; [reflexivity|].
      split; [by apply building_window|]. split; [by apply events_ready_window|].
      split.
      + unfold PAYPAL_value. cbn [window with_window].
        by rewrite lookup_insert_eq.
      + cbn [heap with_window]. by rewrite <- HlP.
    - eexists _, (next_loc w). split; [reflexivity|].
      split; [apply building_window; [by apply building_place|done]|].
      split; [apply events_ready_window; [done|by apply events_ready_place]|].
      split.
      + unfold PAYPAL_value. cbn [window with_window].
        by rewrite lookup_insert_eq.
      + cbn [heap with_window]. by rewrite lookup_prop_new. }
  destruct H6 as (w6 & lP & H6 & HB6 & HE6 & HP6 & HA6).
  rewrite (bind_ret _ _ _ _ _ H6).
  (* window.PAYPAL.checkout = window.paypal.checkout *)
  pose proof HB6 as (Hnv6 & _).
  assert (H7 : bind (get_window "PAYPAL")
                 (fun base => bind checkout_namespace
                                (fun c => set_prop base "checkout" c)) w6
               = (Ret tt, store lP "checkout" (VRef lc) w6)).
  { unfold bind at 1. unfold get_window. fold (PAYPAL_value w6). rewrite HP6.
    by rewrite (bind_ret _ _ _ _ _ (checkout_namespace_value w6 lc Hnv6)). }
  rewrite (bind_ret _ _ _ _ _ H7).
  set (w7 := store lP "checkout" (VRef lc) w6).
  assert (HB7 : building lc t0 fs kv w7) by (by apply building_store; [| |right]).
  assert (HE7 : events_ready w7).
  { apply events_ready_store; try done. right. by rewrite Hnv6. }
  assert (HP7 : PAYPAL_value w7 = VRef lP) by done.
  assert (HC7 : lookup_prop (heap w7) (VRef lP) "checkout" = VRef lc)
    by apply lookup_prop_store_eq.
  assert (HA7 : plain (lookup_prop (heap w7) (VRef lP) "apps") = true).
  { unfold w7. by rewrite lookup_prop_store_ne. }
  clearbody w7. clear H6 H7 HB6 HE6 HP6 HA6 Hnv6 w6.
  (* window.PAYPAL.apps = window.PAYPAL.apps || {} *)
  assert (H8 : exists w8 la,
             bind (get_window "PAYPAL")
               (fun base => bind (default_object (get_prop base "apps"))
                              (fun a => set_prop base "apps" a)) w7
             = (Ret tt, w8) /\
             building lc t0 fs kv w8 /\ events_ready w8 /\
             PAYPAL_value w8 = VRef lP /\
             lookup_prop (heap w8) (VRef lP) "checkout" = VRef lc /\
             lookup_prop (heap w8) (VRef lP) "apps" = VRef la).
  { unfold bind at 1. unfold get_window. fold (PAYPAL_value w7). rewrite HP7.
    pose proof (default_object_run (get_prop (VRef lP) "apps")
                  (lookup_prop (heap w7) (VRef lP) "apps") w7 eq_refl) as Hd.
    destruct (truthy (lookup_prop (heap w7) (VRef lP) "apps")) eqn:Ht;
      rewrite (bind_ret _ _ _ _ _ Hd).
    - destruct (plain_truthy _ HA7 Ht) as (la & Hla). rewrite Hla.
      eexists _, la. split; [reflexivity|].
      split; [by apply building_store; [| |left]|].
      split; [by apply events_ready_store; [| | left|]|].
      split; [done|]. split.
      + by rewrite lookup_prop_store_ne.
      + apply lookup_prop_store_eq.
    - eexists _, (next_loc w7). split; [reflexivity|].
      split; [by apply building_store; [apply building_place| |left]|].
      split; [by apply events_ready_store; [| |left|apply events_ready_place]|].
      split; [done|]. split.
      + by rewrite lookup_prop_store_ne, lookup_prop_place.
      + apply lookup_prop_store_eq. }
  destruct H8 as (w8 & la & H8 & HB8 & HE8 & HP8 & HC8 & HA8).
  rewrite (bind_ret _ _ _ _ _ H8).
  (* window.PAYPAL.apps.checkout = window.paypal.checkout *)
  pose proof HB8 as (Hnv8 & _).
  exists (store la "checkout" (VRef lc) w8). split.
  { unfold bind at 1. unfold get_window. fold (PAYPAL_value w8). rewrite HP8.
    unfold bind at 1. unfold get_prop. rewrite HA8.
    by rewrite (bind_ret _ _ _ _ _ (checkout_namespace_value w8 lc Hnv8)). }
  split; [by apply building_store; [| |right]|].
  split; [apply events_ready_store; try done; right; by rewrite Hnv8|].
  change (PAYPAL_value (store la "checkout" (VRef lc) w8)) with (PAYPAL_value w8).
  rewrite HP8. split.
  - rewrite lookup_prop_store. by case_decide.
  - rewrite (lookup_prop_store_ne _ _ _ _ _ "apps") by done.
    rewrite HA8. apply lookup_prop_store_eq.
Qed.

(** The branch that fills the namespace returns, with everything
    installed. *)
Lemma fill_namespace_run m lc t0 fs w :
  namespace_value w = VRef lc -> trace w = t0 ->
  Forall (fun vf => runs w (fst vf) (snd vf)) fs ->
  aliases_plain w ->
  exists w',
    fill_namespace m w = (Ret tt, w') /\
    installed m lc w' /\ trace w' = t0 /\
    Forall (fun vf => runs w' (fst vf) (snd vf)) fs.
Proof.
  intros Hnv Ht Hfs HA. unfold fill_namespace.
  (* the four functions *)
  rewrite (bind_ret _ _ _ _ _ (assign_value_run w lc _ _ Hnv)).
  pose proof (building_add lc t0 fs [] "setup" (VRef (m_setup m)) w Hnv Ht Hfs
                ltac:(constructor) ltac:(constructor) ltac:(done)) as HB1.
  apply (aliases_plain_store lc "setup" (VRef (m_setup m))) in HA; [|done].
  set (w1 := store lc "setup" (VRef (m_setup m)) w) in *. clearbody w1.
  destruct HB1 as (Hnv1 & _ & Ht1 & Hfs1 & Hkv1).
  rewrite (bind_ret _ _ _ _ _ (assign_value_run w1 lc _ _ Hnv1)).
  pose proof (building_add lc t0 fs _ "initXO" (VRef (m_initXO m)) w1 Hnv1 Ht1 Hfs1
                Hkv1 ltac:(by repeat constructor) ltac:(done)) as HB2.
  apply (aliases_plain_store lc "initXO" (VRef (m_initXO m))) in HA; [|done].
  set (w2 := store lc "initXO" (VRef (m_initXO m)) w1) in *. clearbody w2.
  destruct HB2 as (Hnv2 & _ & Ht2 & Hfs2 & Hkv2).
  rewrite (bind_ret _ _ _ _ _ (assign_value_run w2 lc _ _ Hnv2)).
  pose proof (building_add lc t0 fs _ "startFlow" (VRef (m_startFlow m)) w2 Hnv2 Ht2
                Hfs2 Hkv2 ltac:(by repeat constructor) ltac:(done)) as HB3.
  apply (aliases_plain_store lc "startFlow" (VRef (m_startFlow m))) in HA; [|done].
  set (w3 := store lc "startFlow" (VRef (m_startFlow m)) w2) in *. clearbody w3.
  destruct HB3 as (Hnv3 & _ & Ht3 & Hfs3 & Hkv3).
  rewrite (bind_ret _ _ _ _ _ (assign_value_run w3 lc _ _ Hnv3)).
  pose proof (building_add lc t0 fs _ "closeFlow" (VRef (m_closeFlow m)) w3 Hnv3 Ht3
                Hfs3 Hkv3 ltac:(by repeat constructor) ltac:(done)) as HB4.
  apply (aliases_plain_store lc "closeFlow" (VRef (m_closeFlow m))) in HA; [|done].
  set (w4 := store lc "closeFlow" (VRef (m_closeFlow m)) w3) in *. clearbody w4.
  (* events *)
  pose proof HB4 as (Hnv4 & _).
  rewrite (bind_ret _ _ _ _ _ (events_run w4 lc Hnv4)).
  destruct (events_run_ready lc t0 fs _ w4 HB4 ltac:(by repeat constructor)
              ltac:(by repeat constructor)) as (HB5 & HE5).
  apply (aliases_plain_place empty_obj) in HA; [|done].
  apply (aliases_plain_place (fn_obj FEventsOn)) in HA; [|done].
  apply (aliases_plain_store (next_loc w4) "on"
           (VRef (next_loc (place empty_obj w4)))) in HA; [|done].
  apply (aliases_plain_store lc "events" (VRef (next_loc w4))) in HA; [|done].
  (* the aliases *)
  destruct (aliases_run lc t0 fs _ _ HB5 HE5 HA ltac:(by repeat constructor)
              ltac:(by repeat constructor))
    as (w9 & Hrun & (Hnv9 & Hlc9 & Ht9 & Hfs9 & Hkv9) & HE9 & HC9 & HA9).
  exists w9. split; [exact Hrun|]. split; [|done].
  inversion Hkv9 as [|? ? Hclose Hkv9a]; subst.
  inversion Hkv9a as [|? ? Hstart Hkv9b]; subst.
  inversion Hkv9b as [|? ? Hinit Hkv9c]; subst.
  inversion Hkv9c as [|? ? Hsetup _]; subst.
  cbn [fst snd] in *.
  split; [by apply namespace_of_value|]. split; [done|].
  split; [unfold read_slots, module_slots; by rewrite Hinit, Hstart, Hclose|].
  done.
Qed.

(** [window.paypal.checkout = window.paypal.checkout || {}], where
    [window.paypal] is an object. *)
Lemma ensure_checkout_run w lp :
  window w !! "paypal" = Some (VRef lp) ->
  plain (namespace_value w) = true ->
  truthy (slot w "setup") = false ->
  exists w' lc,
    bind (get_window "paypal")
      (fun base => bind (default_object (get_prop base "checkout"))
                     (fun c => set_prop base "checkout" c)) w
    = (Ret tt, w') /\
    namespace_value w' = VRef lc /\
    truthy (slot w' "setup") = false /\
    trace w' = trace w /\
    (forall v f, runs w v f -> runs w' v f) /\
    (aliases_plain w -> aliases_plain w').
Proof.
  intros Hw Hplain Hset.
  assert (Hnv : namespace_value w = lookup_prop (heap w) (VRef lp) "checkout").
  { unfold namespace_value. by rewrite Hw. }
  unfold bind at 1. unfold get_window. rewrite Hw. cbn [default].
  pose proof (default_object_run (get_prop (VRef lp) "checkout")
                (lookup_prop (heap w) (VRef lp) "checkout") w eq_refl) as Hd.
  rewrite <- Hnv in Hd.
  assert (Hwin : forall l (v : Value) w0,
            window w0 = window w ->
            namespace_value (store lp "checkout" (VRef l) w0) = VRef l).
  { intros l v w0 Hw0. unfold namespace_value. cbn [window store with_heap].
    rewrite Hw0, Hw. apply lookup_prop_store_eq. }
  destruct (truthy (namespace_value w)) eqn:Ht; rewrite (bind_ret _ _ _ _ _ Hd).
  - destruct (plain_truthy _ Hplain Ht) as (lc & Hlc). rewrite Hlc.
    eexists _, lc. split; [reflexivity|].
    split; [by apply (Hwin lc VUndef)|].
    split.
    { rewrite slot_unfold, (Hwin lc VUndef w eq_refl).
      rewrite lookup_prop_store_ne by done.
      by rewrite slot_unfold, Hlc in Hset. }
    split; [done|]. split; [intros; by apply runs_store|].
    by apply aliases_plain_store.
  - eexists _, (next_loc w). split; [reflexivity|].
    split; [by apply (Hwin _ VUndef)|].
    split.
    { rewrite slot_unfold, (Hwin _ VUndef (place empty_obj w) eq_refl).
      rewrite lookup_prop_store_ne by done. by rewrite lookup_prop_new. }
    split; [done|]. split; [intros; by apply runs_store, runs_place|].
    intros HA. by apply aliases_plain_store, aliases_plain_place.
Qed.

(** The installation on a page that has no [setup] yet and can be built
    on: it returns, without a call to anyone, and the namespace is
    installed. *)
Lemma install_fills m t0 fs w :
  installable w = true ->
  truthy (slot w "setup") = false ->
  trace w = t0 ->
  Forall (fun vf => runs w (fst vf) (snd vf)) fs ->
  exists w' lc,
    install m w = (Ret tt, w') /\
    installed m lc w' /\ trace w' = t0 /\
    Forall (fun vf => runs w' (fst vf) (snd vf)) fs.
Proof.
  intros Hinst Hset Ht Hfs. unfold installable in Hinst.
  rewrite !andb_true_iff in Hinst. destruct Hinst as (((Hp & Hc) & HP) & HA).
  (* window.paypal = window.paypal || {} *)
  assert (H1 : exists w1 lp,
             bind (default_object (get_window "paypal"))
               (fun p => set_window "paypal" p) w = (Ret tt, w1) /\
             window w1 !! "paypal" = Some (VRef lp) /\
             plain (namespace_value w1) = true /\
             truthy (slot w1 "setup") = false /\
             trace w1 = t0 /\
             Forall (fun vf => runs w1 (fst vf) (snd vf)) fs /\
             aliases_plain w1).
  { pose proof (default_object_run (get_window "paypal")
                  (default VUndef (window w !! "paypal")) w eq_refl) as Hd.
    destruct (truthy (default VUndef (window w !! "paypal"))) eqn:Htr;
      rewrite (bind_ret _ _ _ _ _ Hd).
    - destruct (plain_truthy _ Hp Htr) as (lp & Hlp).
      eexists _, lp. split; [reflexivity|].
      assert (Hsame : forall name,
                lookup_prop
                  (heap w)
                  (lookup_prop (heap w)
                     (default VUndef
                        (<["paypal" := default VUndef (window w !! "paypal")]>
                           (window w) !! "paypal")) "checkout") name
                = lookup_prop (heap w) (namespace_value w) name).
      { intros name. by rewrite lookup_insert_eq. }
      split; [cbn [window with_window]; by rewrite lookup_insert_eq, Hlp|].
      split.
      { unfold namespace_value. cbn [heap window with_window].
        by rewrite lookup_insert_eq. }
      split.
      { unfold slot. cbn [heap window with_window]. by rewrite Hsame. }
      split; [done|].
      split; [by eapply runs_all_step; [|exact Hfs]; intros; apply (runs_same_heap w)|].
      by apply aliases_plain_window.
    - eexists _, (next_loc w). split; [reflexivity|].
      split; [cbn [window with_window]; by rewrite lookup_insert_eq|].
      split.
      { unfold namespace_value. cbn [heap window with_window].
        by rewrite lookup_insert_eq, lookup_prop_new. }
      split.
      { unfold slot. cbn [heap window with_window].
        by rewrite lookup_insert_eq, lookup_prop_new. }
      split; [done|].
      split.
      { eapply runs_all_step; [|exact Hfs]. intros v f Hv.
        by apply (runs_same_heap (place empty_obj w)), runs_place. }
      apply (aliases_plain_window _ (place empty_obj w)).
      by apply aliases_plain_place. }
  destruct H1 as (w1 & lp & H1 & Hw1 & Hc1 & Hset1 & Ht1 & Hfs1 & HA1).
  (* window.paypal.checkout = window.paypal.checkout || {} *)
  destruct (ensure_checkout_run w1 lp Hw1 Hc1 Hset1)
    as (w2 & lc & H2 & Hnv2 & Hset2 & Ht2 & Hruns2 & HA2).
  (* if (window.paypal.checkout.setup) *)
  assert (H3 : bind checkout_namespace (fun c => get_prop c "setup") w2
               = (Ret (slot w2 "setup"), w2)).
  { rewrite (bind_ret _ _ _ _ _ (checkout_namespace_value w2 lc Hnv2)).
    by rewrite slot_unfold, Hnv2. }
  destruct (fill_namespace_run m lc t0 fs w2 Hnv2 ltac:(congruence)
              (runs_all_step fs w1 w2 Hruns2 Hfs1) (HA2 HA1))
    as (w' & Hfill & Hinstalled & Ht' & Hfs').
  exists w', lc. split; [|done].
  unfold install.
  rewrite (bind_ret _ _ _ _ _ H1), (bind_ret _ _ _ _ _ H2), (bind_ret _ _ _ _ _ H3).
  rewrite Hset2. exact Hfill.
Qed.

(** Once [setup] is there, it stays refused. *)
Lemma installed_setup_truthy m lc w : installed m lc w -> truthy (slot w "setup") = true.
Proof. by intros (_ & -> & _). Qed.

Lemma installed_same_objects m lc w w' :
  heap w' = heap w -> window w' = window w -> installed m lc w -> installed m lc w'.
Proof.
  intros Hh Hg (H1 & H2 & H3 & H4 & H5 & H6). repeat split.
  - by rewrite (namespace_same_objects w w').
  - unfold slot in *. by rewrite Hh, Hg.
  - by rewrite (read_slots_same_objects w w').
  - apply (runs_same_heap w); [done|]. unfold slot in *. by rewrite Hh, Hg.
  - unfold PAYPAL_value in *. by rewrite Hh, Hg.
  - unfold PAYPAL_value in *. by rewrite Hh, Hg.
Qed.

Lemma installable_place o w :
  props o = ∅ -> installable (place o w) = installable w.
Proof.
  intros Ho. unfold installable.
  rewrite namespace_value_place by done.
  change (PAYPAL_value (place o w)) with (PAYPAL_value w).
  change (window (place o w)) with (window w).
  by rewrite lookup_prop_place.
Qed.

Lemma next_loc_dom w w' : dom (heap w) = dom (heap w') -> next_loc w = next_loc w'.
Proof. unfold next_loc. by intros ->. Qed.

Lemma dom_place o o' w w' :
  dom (heap w) = dom (heap w') -> dom (heap (place o w)) = dom (heap (place o' w')).
Proof.
  intros H. cbn [place heap with_heap]. by rewrite !dom_insert_L, (next_loc_dom w w' H), H.
Qed.

(** The declarations and the installation on a page that has no [setup]
    yet and can be built on. *)
Lemma declare_and_install_run w :
  installable w = true ->
  truthy (slot w "setup") = false ->
  exists m lc w',
    declare_and_install w = (Ret m, w') /\
    installed m lc w' /\ module_at w' m /\
    runs w' (VRef (m_setup m)) FSetup /\
    (forall v f, runs w v f -> runs w' v f).
Proof.
  intros Hinst Hset.
  set (m := next_module w).
  set (w1 := place (fn_obj FSetup) w).
  set (w2 := place (fn_obj (FInitXO m)) w1).
  set (w3 := place (fn_obj (FStartFlow m)) w2).
  set (w4 := place (fn_obj FCloseFlow) w3).
  assert (Hd1 : dom (heap (place empty_obj w)) = dom (heap w1)) by by apply dom_place.
  assert (Hd2 : dom (heap (place empty_obj (place empty_obj w))) = dom (heap w2))
    by by apply dom_place.
  assert (Hd3 : dom (heap (place empty_obj (place empty_obj (place empty_obj w))))
                = dom (heap w3)) by by apply dom_place.
  assert (Hm : m = {| m_setup := next_loc w; m_initXO := next_loc w1;
                      m_startFlow := next_loc w2; m_closeFlow := next_loc w3 |}).
  { unfold m, next_module. cbn zeta.
    by rewrite (next_loc_dom _ _ Hd1), (next_loc_dom _ _ Hd2), (next_loc_dom _ _ Hd3). }
  assert (Hinst4 : installable w4 = true).
  { unfold w4, w3, w2, w1. by rewrite !installable_place. }
  assert (Hset4 : truthy (slot w4 "setup") = false).
  { unfold w4, w3, w2, w1. by rewrite !slot_place_empty. }
  assert (Hold : forall v f, runs w v f -> runs w4 v f).
  { intros v f Hv. unfold w4, w3, w2, w1. by do 4 apply runs_place. }
  assert (Hfs : Forall (fun vf => runs w4 (fst vf) (snd vf))
                  [(VRef (m_setup m), FSetup); (VRef (m_initXO m), FInitXO m);
                   (VRef (m_startFlow m), FStartFlow m);
                   (VRef (m_closeFlow m), FCloseFlow)]).
  { rewrite Hm at 1 2 4 6. cbn [m_setup m_initXO m_startFlow m_closeFlow].
    repeat apply Forall_cons_2; [| | | |apply Forall_nil_2]; cbn [fst snd].
    - unfold w4, w3, w2. do 3 apply runs_place. apply runs_new.
    - unfold w4, w3. do 2 apply runs_place. apply runs_new.
    - unfold w4. apply runs_place. apply runs_new.
    - apply runs_new. }
  assert (Hall : forall v f, runs w v f ->
            Forall (fun vf => runs w4 (fst vf) (snd vf))
              ((v, f) :: [(VRef (m_setup m), FSetup); (VRef (m_initXO m), FInitXO m);
                          (VRef (m_startFlow m), FStartFlow m);
                          (VRef (m_closeFlow m), FCloseFlow)])).
  { intros v f Hv. apply Forall_cons_2; [by apply Hold|exact Hfs]. }
  destruct (install_fills m (trace w) _ w4 Hinst4 Hset4 eq_refl Hfs)
    as (w' & lc & Hrun & Hinstalled & Ht & Hfs').
  exists m, lc, w'.
  assert (Hload : declare_and_install w = (Ret m, w')).
  { unfold declare_and_install. cbn zeta. fold m.
    rewrite (bind_ret (new_function FSetup) _ w (VRef (next_loc w)) w1 eq_refl).
    rewrite (bind_ret (new_function (FInitXO m)) _ w1 (VRef (next_loc w1)) w2 eq_refl).
    rewrite (bind_ret (new_function (FStartFlow m)) _ w2 (VRef (next_loc w2)) w3 eq_refl).
    rewrite (bind_ret (new_function FCloseFlow) _ w3 (VRef (next_loc w3)) w4 eq_refl).
    by rewrite (bind_ret _ _ _ _ _ Hrun). }
  split; [exact Hload|]. split; [exact Hinstalled|].
  apply Forall_cons in Hfs' as [Hs Hfs']. apply Forall_cons in Hfs' as [Hi Hfs'].
  apply Forall_cons in Hfs' as [Hst Hfs']. apply Forall_cons in Hfs' as [Hcl _].
  split; [by repeat split|]. split; [exact Hs|].
  intros v f Hv.
  destruct (install_fills m (trace w) _ w4 Hinst4 Hset4 eq_refl (Hall v f Hv))
    as (w'' & lc' & Hrun' & _ & _ & Hfs'').
  rewrite Hrun in Hrun'. injection Hrun' as <-.
  by apply Forall_cons in Hfs'' as [Hv' _].
Qed.

End Install.

(** X12. On a page where [window.paypal.checkout.setup] is not there, and
    where [window.paypal], [window.paypal.checkout], [window.PAYPAL] and
    [window.PAYPAL.apps] are missing, empty or objects, the installation
    returns without a call to anyone, and afterwards the namespace holds
    [setup], [initXO], [startFlow], [closeFlow] of the module, an [events]
    object with a method [on], and [window.PAYPAL.checkout] and
    [window.PAYPAL.apps.checkout] are this very namespace object.  The
    function objects that were on the page still run what they ran. *)
Theorem install_completes m w :
  installable w = true ->
  truthy (slot w "setup") = false ->
  let w' := run (install m) w in
  outcome (install m) w = Ret tt /\
  trace w' = trace w /\
  (exists lc, installed m lc w') /\
  (forall v f, runs w v f -> runs w' v f).
Proof.
  intros Hinst Hset. cbn zeta. unfold outcome, run.
  destruct (install_fills m (trace w) [] w Hinst Hset eq_refl (Forall_nil_2 _))
    as (w' & lc & Hrun & Hinstalled & Ht & _).
  rewrite Hrun. cbn [fst snd].
  split; [done|]. split; [done|]. split; [by exists lc|].
  intros v f Hv.
  assert (Hone : Forall (fun vf => runs w (fst vf) (snd vf)) [(v, f)])
    by (apply Forall_cons_2; [exact Hv|apply Forall_nil_2]).
  destruct (install_fills m (trace w) [(v, f)] w Hinst Hset eq_refl Hone)
    as (w'' & lc' & Hrun' & _ & _ & Hfs).
  rewrite Hrun in Hrun'. injection Hrun' as <-.
  by apply Forall_cons in Hfs as [Hv' _].
Qed.

Lemma install_completes_witness :
  installable (empty_page true "https://www.paypal.com/checkoutnow") = true /\
  truthy (slot (empty_page true "https://www.paypal.com/checkoutnow") "setup") = false /\
  outcome (install loaded_module) (empty_page true "https://www.paypal.com/checkoutnow")
  = Ret tt /\
  trace (run (install loaded_module) (empty_page true "https://www.paypal.com/checkoutnow"))
  = trace (empty_page true "https://www.paypal.com/checkoutnow").
Proof.
  assert (Hinst : installable (empty_page true "https://www.paypal.com/checkoutnow") = true)
    by (vm_compute; reflexivity).
  assert (Hset : truthy (slot (empty_page true "https://www.paypal.com/checkoutnow") "setup")
                 = false) by (vm_compute; reflexivity).
  pose proof (install_completes loaded_module
                (empty_page true "https://www.paypal.com/checkoutnow") Hinst Hset)
    as (Hret & Ht & _).
  split; [exact Hinst|]. split; [exact Hset|]. split; [exact Hret|exact Ht].
Defined.

(** X13. The first installation wins.  After the installation of one
    module on a page that could take it, the installation of another
    returns, logs the error on the console and nothing else, leaves the
    heap and the global object as they were, and the namespace still holds
    the functions of the first module. *)
Theorem first_install_wins m1 m2 w :
  installable w = true ->
  truthy (slot w "setup") = false ->
  let w1 := run (install m1) w in
  let w2 := run (install m2) w1 in
  outcome (install m2) w1 = Ret tt /\
  calls_since w1 w2 = [ConsoleError install_error] /\
  heap w2 = heap w1 /\
  window w2 = window w1 /\
  exists lc, installed m1 lc w2.
Proof.
  intros Hinst Hset. cbn zeta.
  destruct (install_fills m1 (trace w) [] w Hinst Hset eq_refl (Forall_nil_2 _))
    as (w1 & lc & Hrun & Hinstalled & _).
  unfold outcome, run. rewrite Hrun. cbn [snd].
  rewrite (install_guard_run m2 w1 (installed_setup_truthy m1 lc w1 Hinstalled)).
  cbn [fst snd].
  split; [done|].
  split; [exact (calls_since_pushes [ConsoleError install_error] w1)|].
  split; [done|]. split; [done|].
  exists lc. by apply (installed_same_objects m1 lc w1).
Qed.

Lemma first_install_wins_witness :
  installable (empty_page true "https://www.paypal.com/checkoutnow") = true /\
  truthy (slot (empty_page true "https://www.paypal.com/checkoutnow") "setup") = false /\
  calls_since
    (run (install loaded_module) (empty_page true "https://www.paypal.com/checkoutnow"))
    (run (install {| m_setup := 20; m_initXO := 21; m_startFlow := 22; m_closeFlow := 23 |})
       (run (install loaded_module) (empty_page true "https://www.paypal.com/checkoutnow")))
  = [ConsoleError install_error].
Proof.
  assert (Hinst : installable (empty_page true "https://www.paypal.com/checkoutnow") = true)
    by (vm_compute; reflexivity).
  assert (Hset : truthy (slot (empty_page true "https://www.paypal.com/checkoutnow") "setup")
                 = false) by (vm_compute; reflexivity).
  pose proof (first_install_wins loaded_module
                {| m_setup := 20; m_initXO := 21; m_startFlow := 22; m_closeFlow := 23 |}
                (empty_page true "https://www.paypal.com/checkoutnow") Hinst Hset)
    as (_ & Hcalls & _).
  split; [exact Hinst|]. split; [exact Hset|exact Hcalls].
Defined.

(** X14. The installation leaves the page idle.  When the four functions
    of a module have been declared and its installation statements have
    run, on a page where [setup] was not there and that could be built
    on, the namespace is installed with four new function objects:
    [initXO], [startFlow] and [closeFlow] of the namespace run the
    module's own functions, [setup] is the module's, and no acquisition is
    pending.  The function objects the page had still run what they
    ran. *)
Theorem installation_leaves_idle w :
  installable w = true ->
  truthy (slot w "setup") = false ->
  exists m lc,
    let w' := run declare_and_install w in
    outcome declare_and_install w = Ret m /\
    idle m lc w' /\
    installed m lc w' /\
    runs w' (VRef (m_setup m)) FSetup /\
    (forall v f, runs w v f -> runs w' v f).
Proof.
  intros Hinst Hset.
  destruct (declare_and_install_run w Hinst Hset)
    as (m & lc & w' & Hrun & Hinstalled & Hm & Hs & Hold).
  exists m, lc. cbn zeta. unfold outcome, run. rewrite Hrun. cbn [fst snd].
  split; [done|]. split; [|done].
  destruct Hinstalled as (Hns & _ & Hslots & _).
  split; [exact Hns|]. split; [exact Hm|exact Hslots].
Qed.

Lemma installation_leaves_idle_witness :
  installable (empty_page false "https://www.paypal.com/checkoutnow") = true /\
  truthy (slot (empty_page false "https://www.paypal.com/checkoutnow") "setup") = false /\
  exists m lc,
    outcome declare_and_install (empty_page false "https://www.paypal.com/checkoutnow")
    = Ret m /\
    idle m lc (run declare_and_install
                 (empty_page false "https://www.paypal.com/checkoutnow")).
Proof.
  assert (Hinst : installable (empty_page false "https://www.paypal.com/checkoutnow") = true)
    by (vm_compute; reflexivity).
  assert (Hset : truthy (slot (empty_page false "https://www.paypal.com/checkoutnow") "setup")
                 = false) by (vm_compute; reflexivity).
  pose proof (installation_leaves_idle
                (empty_page false "https://www.paypal.com/checkoutnow") Hinst Hset)
    as (m & lc & Hret & Hidle & _).
  split; [exact Hinst|]. split; [exact Hset|].
  exists m, lc. split; [exact Hret|exact Hidle].
Defined.
